(** * SentimentRNN: the preprocessing and batching code of [Sentiment_RNN.ipynb]

    A shallow embedding of the notebook's data pipeline: text cleaning,
    vocabulary construction, integer encoding of reviews and labels, the
    zero-length filter, the 200-column feature matrix, the
    train/validation/test split and the [get_batches] generator.

    Conventions.
    - A Python [str] is a [string]; a character is an [ascii], read as the
      code point of the same number (0..255).
    - A Python [list] and a one-dimensional numpy array are a [list]; the
      two-dimensional array [features] is a list of rows.
    - Word ids and labels are [nat]; slice bounds, range bounds and
      [batch_size] are [Z], since their sign matters to Python.
    - [Counter] is an association list in insertion order (the iteration
      order of a CPython 3.6+ dict); [vocab_to_int] is a [gmap].
    - A Python [float] is a binary64 [spec_float].
    - Code that can raise returns a [result]. *)

From Stdlib Require Import ZArith String Ascii List Lia.
From Stdlib Require Import Floats.SpecFloat.
From stdpp Require Import gmap strings list fin_maps sorting.

Local Open Scope nat_scope.

#[local] Set Warnings "-clear-no-such-hyp".

(** ** Exceptions *)

Inductive exn : Type :=
  | KeyError (word : string)
  | IndexError
  | ZeroDivisionError
  | OverflowError
  | ValueError.

Inductive result (A : Type) : Type :=
  | Ok (a : A)
  | Raise (e : exn).

Arguments Ok {A} a.
Arguments Raise {A} e.

#[global] Instance result_ret : MRet result := λ A a, Ok a.
#[global] Instance result_bind : MBind result := λ A B f m,
  match m with
  | Ok a => f a
  | Raise e => Raise e
  end.

(** ** Python built-ins used by the notebook *)

Module Py.

(** The line feed, the ['\n'] of the source. *)
Definition LF : ascii := ascii_of_nat 10.

(** [string.punctuation]: the 32 ASCII punctuation characters, code points
    33-47, 58-64, 91-96 and 123-126. *)
Definition punctuation (c : ascii) : bool :=
  let n := nat_of_ascii c in
  ((33 <=? n) && (n <=? 47)) || ((58 <=? n) && (n <=? 64))
  || ((91 <=? n) && (n <=? 96)) || ((123 <=? n) && (n <=? 126)).

(** The characters [str.split()] treats as white space, among the code
    points below 256. *)
Definition isspace (c : ascii) : bool :=
  let n := nat_of_ascii c in
  ((9 <=? n) && (n <=? 13)) || ((28 <=? n) && (n <=? 32))
  || (n =? 133) || (n =? 160).

(** Cut [s] at every character satisfying [sep]; empty pieces are kept,
    so the result has one more piece than [s] has separators. *)
Fixpoint split_by (sep : ascii → bool) (s : string) : list string :=
  match s with
  | EmptyString => [EmptyString]
  | String c s' =>
      if sep c then EmptyString :: split_by sep s'
      else match split_by sep s' with
           | cur :: rest => String c cur :: rest
           | [] => [String c EmptyString]
           end
  end.

(** [s.split(c)] for a one-character separator. *)
Definition split (c : ascii) (s : string) : list string :=
  split_by (Ascii.eqb c) s.

(** [s.split()]: cut at runs of white space, no empty piece. *)
Definition split_ws (s : string) : list string :=
  filter (λ w, w ≠ EmptyString) (split_by isspace s).

(** [sep.join(l)]. *)
Definition join (sep : string) (l : list string) : string :=
  match l with
  | [] => EmptyString
  | s :: l' => fold_left (λ acc t, acc +:+ sep +:+ t) l' s
  end.

(** [[c for c in s if not drop c]] joined back into a string. *)
Fixpoint remove_chars (drop : ascii → bool) (s : string) : string :=
  match s with
  | EmptyString => EmptyString
  | String c s' =>
      if drop c then remove_chars drop s' else String c (remove_chars drop s')
  end.

(** [enumerate(l)], counting from [k]. *)
Fixpoint enumerate_from {A} (k : nat) (l : list A) : list (nat * A) :=
  match l with
  | [] => []
  | a :: l' => (k, a) :: enumerate_from (S k) l'
  end.

Definition enumerate {A} (l : list A) : list (nat * A) := enumerate_from 0 l.

(** A slice bound [i] of a sequence of length [len]: a negative bound
    counts from the end, and the result is clamped to [0..len]. *)
Definition clamp (len : nat) (i : Z) : nat :=
  let j := if (i <? 0)%Z then (Z.of_nat len + i)%Z else i in
  Z.to_nat (Z.min (Z.max 0 j) (Z.of_nat len)).

(** [l[lo:hi]], [l[:hi]] and [l[lo:]]. *)
Definition slice {A} (lo hi : Z) (l : list A) : list A :=
  drop (clamp (length l) lo) (take (clamp (length l) hi) l).

Definition slice_to {A} (hi : Z) (l : list A) : list A :=
  take (clamp (length l) hi) l.

Definition slice_from {A} (lo : Z) (l : list A) : list A :=
  drop (clamp (length l) lo) l.

(** [range(start, stop, step)]; a zero step raises [ValueError]. *)
Definition range_len (start stop step : Z) : nat :=
  if (0 <? step)%Z then Z.to_nat ((stop - start + step - 1) / step)
  else Z.to_nat ((start - stop - step - 1) / (- step)).

Definition range (start stop step : Z) : result (list Z) :=
  if (step =? 0)%Z then Raise ValueError
  else Ok (map (λ k, (start + Z.of_nat k * step)%Z)
             (seq 0 (range_len start stop step))).

(** [a // b] on integers: floor division, [ZeroDivisionError] at [b = 0]. *)
Definition floordiv (a b : Z) : result Z :=
  if (b =? 0)%Z then Raise ZeroDivisionError else Ok (a / b)%Z.

End Py.

(** ** Cleaning the text *)

(** [all_text = ''.join([c for c in reviews if c not in punctuation])] *)
Definition all_text (reviews : string) : string :=
  Py.remove_chars Py.punctuation reviews.

(** [reviews = all_text.split('\n')] *)
Definition reviews_of (reviews : string) : list string :=
  Py.split Py.LF (all_text reviews).

(** [all_text = ' '.join(reviews)], then [words = all_text.split()] *)
Definition words_of (reviews : string) : list string :=
  Py.split_ws (Py.join " " (reviews_of reviews)).

(** ** The vocabulary *)

(** [counts[w] += 1] on an insertion-ordered dict: a new key goes last. *)
Fixpoint counter_incr (w : string) (counts : list (string * nat))
  : list (string * nat) :=
  match counts with
  | [] => [(w, 1)]
  | (k, c) :: rest =>
      if decide (k = w) then (k, S c) :: rest
      else (k, c) :: counter_incr w rest
  end.

(** [Counter(words)] *)
Definition Counter (words : list string) : list (string * nat) :=
  fold_left (λ counts w, counter_incr w counts) words [].

(** [counts.get]; the sort below applies it to keys of [counts] only. *)
Fixpoint counts_get (counts : list (string * nat)) (w : string) : nat :=
  match counts with
  | [] => 0
  | (k, c) :: rest => if decide (k = w) then c else counts_get rest w
  end.

(** [sorted(l, key=key, reverse=True)]: descending keys, and elements with
    equal keys stay in the order they have in [l] (the sort is stable, also
    under [reverse=True]). *)
Fixpoint insert_desc (key : string → nat) (x : string) (l : list string)
  : list string :=
  match l with
  | [] => [x]
  | y :: l' => if key y <=? key x then x :: l else y :: insert_desc key x l'
  end.

Definition sorted_reverse (key : string → nat) (l : list string) : list string :=
  foldr (insert_desc key) [] l.

(** [vocab = sorted(counts, key=counts.get, reverse=True)] *)
Definition vocab_of (counts : list (string * nat)) : list string :=
  sorted_reverse (counts_get counts) (map fst counts).

(** [vocab_to_int = {word: ii+1 for ii, word in enumerate(vocab)}] *)
Definition vocab_to_int_of (vocab : list string) : gmap string nat :=
  fold_left (λ d p, <[p.2 := (p.1 + 1)]> d) (Py.enumerate vocab) ∅.

Definition vocab (words : list string) : list string := vocab_of (Counter words).

Definition vocab_to_int (words : list string) : gmap string nat :=
  vocab_to_int_of (vocab words).

(** ** Encoding the reviews *)

(** [vocab_to_int[word]]: a missing key raises [KeyError]. *)
Definition getitem (d : gmap string nat) (word : string) : result nat :=
  match d !! word with
  | Some i => Ok i
  | None => Raise (KeyError word)
  end.

(** [[vocab_to_int[word] for word in each.split()]] *)
Definition encode_review (d : gmap string nat) (each : string)
  : result (list nat) :=
  mapM (getitem d) (Py.split_ws each).

(** The loop [for each in reviews: reviews_ints.append(...)]. *)
Definition encode_reviews (d : gmap string nat) (reviews : list string)
  : result (list (list nat)) :=
  mapM (encode_review d) reviews.

(** ** Encoding the labels *)

(** [1 if each == 'positive' else 0] *)
Definition encode_label (each : string) : nat :=
  if decide (each = "positive") then 1 else 0.

(** [labels.split('\n')], then the comprehension over it. *)
Definition labels_of (labels : string) : list nat :=
  map encode_label (Py.split Py.LF labels).

(** ** The zero-length filter *)

(** [reviews_ints = [each for each in reviews_ints if len(each)!=0]] *)
Definition filter_nonempty (reviews_ints : list (list nat)) : list (list nat) :=
  filter (λ each, length each ≠ 0) reviews_ints.

(** ** The feature matrix *)

Definition seq_len : nat := 200.

(** [np.zeros((rows, cols), dtype=int)] *)
Definition np_zeros (rows cols : nat) : list (list nat) :=
  replicate rows (replicate cols 0).

(** numpy's assignment [target[...] = vals] into a one-dimensional target of
    the shape of [dst]: the shapes agree, or [vals] has one element and is
    broadcast; anything else raises [ValueError]. The value returned is the
    new content of the target. *)
Definition np_assign (dst vals : list nat) : result (list nat) :=
  if decide (length vals = length dst) then Ok vals
  else match vals with
       | [v] => Ok (replicate (length dst) v)
       | _ => Raise ValueError
       end.

(** One turn of the loop [for i, each in enumerate(reviews_ints)]:
    [features[i] = each[:200]] when [len(each) >= 200], and
    [features[i, diff:] = each] with [diff = 200 - len(each)] otherwise. *)
Definition frame_row (features : list (list nat)) (p : nat * list nat)
  : result (list (list nat)) :=
  let '(i, each) := p in
  match features !! i with
  | None => Raise IndexError
  | Some row =>
      if 200 <=? length each then
        new ← np_assign row (Py.slice_to 200 each);
        Ok (<[i := new]> features)
      else
        let diff := (200 - Z.of_nat (length each))%Z in
        new ← np_assign (Py.slice_from diff row) each;
        Ok (<[i := take (Py.clamp (length row) diff) row ++ new]> features)
  end.

Fixpoint foldM {A B} (f : B → A → result B) (b : B) (l : list A) : result B :=
  match l with
  | [] => Ok b
  | a :: l' => b' ← f b a; foldM f b' l'
  end.

Definition features_of (reviews_ints : list (list nat)) : result (list (list nat)) :=
  foldM frame_row (np_zeros (length reviews_ints) seq_len) (Py.enumerate reviews_ints).

(** ** Python floats (binary64) *)

Module Float.

Definition prec : Z := 53.
Definition emax : Z := 1024.

(** The conversion of an [int] operand of a float operation; an [int] too
    large for a float raises [OverflowError]. *)
Definition of_int (n : Z) : result spec_float :=
  match binary_normalize prec emax n 0 false with
  | S754_infinity _ => Raise OverflowError
  | f => Ok f
  end.

Definition mul (a b : spec_float) : spec_float := SFmul prec emax a b.

(** [int(f)]: truncation toward zero. *)
Definition to_int (f : spec_float) : result Z :=
  match f with
  | S754_zero _ => Ok 0%Z
  | S754_finite s m e =>
      let a := (if (0 <=? e)%Z then Z.pos m * 2 ^ e else Z.pos m / 2 ^ (- e))%Z in
      Ok (if s then - a else a)%Z
  | S754_infinity _ => Raise OverflowError
  | S754_nan => Raise ValueError
  end.

(** The literals [0.8] and [0.5]: the doubles [0x1.999999999999ap-1] and
    [0x1p-1]. *)
Definition lit_0_8 : spec_float := S754_finite false 7205759403792794 (-53).
Definition lit_0_5 : spec_float := S754_finite false 4503599627370496 (-53).

(** [int(n * f)] for an [int] n and a [float] f. *)
Definition int_mul (n : Z) (f : spec_float) : result Z :=
  x ← of_int n; to_int (mul x f).

End Float.

(** ** Training, validation and test sets *)

Record split_sets : Type := {
  train_x : list (list nat);  train_y : list nat;
  val_x : list (list nat);    val_y : list nat;
  test_x : list (list nat);   test_y : list nat
}.

(** [split_idx = int(len(features)*0.8)] *)
Definition split_idx (features : list (list nat)) : result Z :=
  Float.int_mul (Z.of_nat (length features)) Float.lit_0_8.

(** [test_idx = int(len(val_x)*0.5)] *)
Definition test_idx (val_x : list (list nat)) : result Z :=
  Float.int_mul (Z.of_nat (length val_x)) Float.lit_0_5.

Definition split (features : list (list nat)) (labels : list nat)
  : result split_sets :=
  split_idx ← split_idx features;
  let train_x := Py.slice_to split_idx features in
  let val_x := Py.slice_from split_idx features in
  let train_y := Py.slice_to split_idx labels in
  let val_y := Py.slice_from split_idx labels in
  test_idx ← test_idx val_x;
  Ok {| train_x := train_x; train_y := train_y;
        val_x := Py.slice_to test_idx val_x;
        val_y := Py.slice_to test_idx val_y;
        test_x := Py.slice_from test_idx val_x;
        test_y := Py.slice_from test_idx val_y |}.

(** ** Batching *)

Section Batching.
Context {X Y : Type}.

(** The object a call of [get_batches] returns: a frame that has not run
    yet, a frame suspended at the [yield] with the rest of the [range] still
    to visit, or a finished one. *)
Inductive generator : Type :=
  | Created (x : list X) (y : list Y) (batch_size : Z)
  | Suspended (x : list X) (y : list Y) (batch_size : Z) (pending : list Z)
  | Finished.

Inductive outcome : Type :=
  | Yield (bx : list X) (by_ : list Y)
  | StopIteration
  | Raised (e : exn).

(** Calling a generator function runs none of its body. *)
Definition get_batches (x : list X) (y : list Y) (batch_size : Z) : generator :=
  Created x y batch_size.

(** The body up to the loop:
    [n_batches = len(x)//batch_size], the two truncations, and the [range]. *)
Definition prologue (x : list X) (y : list Y) (batch_size : Z)
  : result (list X * list Y * list Z) :=
  n_batches ← Py.floordiv (Z.of_nat (length x)) batch_size;
  let x' := Py.slice_to (n_batches * batch_size) x in
  let y' := Py.slice_to (n_batches * batch_size) y in
  pending ← Py.range 0 (Z.of_nat (length x')) batch_size;
  Ok (x', y', pending).

(** [yield x[ii:ii+batch_size], y[ii:ii+batch_size]] *)
Definition batch_at (x : list X) (y : list Y) (batch_size ii : Z)
  : list X * list Y :=
  (Py.slice ii (ii + batch_size) x, Py.slice ii (ii + batch_size) y).

Definition resume (x : list X) (y : list Y) (batch_size : Z) (pending : list Z)
  : outcome * generator :=
  match pending with
  | [] => (StopIteration, Finished)
  | ii :: rest =>
      let '(bx, by_) := batch_at x y batch_size ii in
      (Yield bx by_, Suspended x y batch_size rest)
  end.

(** [next(g)] *)
Definition next (g : generator) : outcome * generator :=
  match g with
  | Created x y batch_size =>
      match prologue x y batch_size with
      | Raise e => (Raised e, Finished)
      | Ok (x', y', pending) => resume x' y' batch_size pending
      end
  | Suspended x y batch_size pending => resume x y batch_size pending
  | Finished => (StopIteration, Finished)
  end.

(** [list(g)]: every batch the generator yields until it stops. *)
Definition collect (g : generator) : result (list (list X * list Y)) :=
  match g with
  | Created x y batch_size =>
      '(x', y', pending) ← prologue x y batch_size;
      Ok (map (batch_at x' y' batch_size) pending)
  | Suspended x y batch_size pending => Ok (map (batch_at x y batch_size) pending)
  | Finished => Ok []
  end.

End Batching.

Arguments generator : clear implicits.
Arguments outcome : clear implicits.

(** ** The notebook, cell after cell *)

Record notebook : Type := {
  nb_reviews : list string;
  nb_words : list string;
  nb_vocab_to_int : gmap string nat;
  nb_reviews_ints : list (list nat);
  nb_labels : list nat;
  nb_features : list (list nat);
  nb_sets : split_sets
}.

Definition run (reviews labels : string) : result notebook :=
  let rs := reviews_of reviews in
  let words := words_of reviews in
  let d := vocab_to_int words in
  reviews_ints ← encode_reviews d rs;
  let labels := labels_of labels in
  let reviews_ints := filter_nonempty reviews_ints in
  features ← features_of reviews_ints;
  sets ← split features labels;
  Ok {| nb_reviews := rs; nb_words := words; nb_vocab_to_int := d;
        nb_reviews_ints := reviews_ints; nb_labels := labels;
        nb_features := features; nb_sets := sets |}.

(** ** The cells between the pipeline stages *)

(** [n_words = len(vocab_to_int) + 1] *)
Definition n_words (d : gmap string nat) : nat := size d + 1.

(** [Counter(keys)] for integer keys; the order of its keys plays no part
    below, so it is a map. *)
Definition counter_of (keys : list nat) : gmap nat nat :=
  fold_left (λ m k, <[k := default 0 (m !! k) + 1]> m) keys ∅.

(** [review_lens = Counter([len(x) for x in reviews_ints])] *)
Definition review_lens (reviews_ints : list (list nat)) : gmap nat nat :=
  counter_of (map length reviews_ints).

(** [c[k]] on a [Counter]: 0 for a key it does not hold. *)
Definition counter_getitem (c : gmap nat nat) (k : nat) : nat :=
  default 0 (c !! k).

(** [max(c)]: the largest key, [ValueError] on an empty counter. *)
Definition counter_max (c : gmap nat nat) : result nat :=
  match elements (dom c) with
  | [] => Raise ValueError
  | ks => Ok (max_list ks)
  end.

(** ** Notions the properties are stated with *)

(** The number of times [w] occurs in the flat token stream. *)
Definition occurrences (w : string) (words : list string) : nat :=
  length (filter (λ x, x = w) words).

(** Descending order of a key along a list. *)
Definition descending (key : string → nat) (l : list string) : Prop :=
  StronglySorted (λ x y, key y ≤ key x) l.

(** The row the framing loop writes for one encoded review, in the words of
    the description: the first 200 ids of a long review, zeros and then the
    ids of a short one. *)
Definition framed (each : list nat) : list nat :=
  if 200 <=? length each then take 200 each
  else replicate (200 - length each) 0 ++ each.

(** * Properties *)

(** ** The counter *)

Section CounterFacts.

Implicit Types (w k : string) (counts : list (string * nat)) (words : list string).

Lemma counter_incr_keys w counts :
  counts.*1 ++ (if decide (w ∈ counts.*1) then [] else [w])
  = (counter_incr w counts).*1.
Proof.
  induction counts as [|[k c] rest IH].
  - simpl. destruct (decide (w ∈ [])) as [Hin|]; [|done]. set_solver.
  - cbn [counter_incr fmap list_fmap fst].
    destruct (decide (k = w)) as [->|Hne].
    + destruct (decide (w ∈ w :: rest.*1)) as [|Hnin]; [|set_solver].
      by rewrite app_nil_r.
    + cbn [fmap list_fmap fst]. rewrite <- IH. simpl. f_equal. f_equal.
      destruct (decide (w ∈ rest.*1)), (decide (w ∈ k :: rest.*1));
        set_solver.
Qed.

Lemma counter_incr_get w counts k :
  counts_get (counter_incr w counts) k
  = counts_get counts k + (if decide (w = k) then 1 else 0).
Proof.
  induction counts as [|[k' c] rest IH]; simpl.
  - destruct (decide (w = k)); reflexivity.
  - destruct (decide (k' = w)) as [->|Hne]; simpl.
    + destruct (decide (w = k)); lia.
    + destruct (decide (k' = k)) as [->|]; [|exact IH].
      rewrite decide_False by congruence. lia.
Qed.

Lemma counter_incr_NoDup w counts :
  NoDup counts.*1 → NoDup (counter_incr w counts).*1.
Proof.
  intros Hnd. rewrite <- counter_incr_keys.
  destruct (decide (w ∈ counts.*1)).
  - by rewrite app_nil_r.
  - apply NoDup_app. split_and!; [done|set_solver|apply NoDup_singleton].
Qed.

Lemma counter_incr_elem w counts k :
  k ∈ (counter_incr w counts).*1 ↔ k = w ∨ k ∈ counts.*1.
Proof.
  rewrite <- counter_incr_keys.
  destruct (decide (w ∈ counts.*1)); set_solver.
Qed.

(** The loop of [Counter], from any dict [acc]. *)
Lemma Counter_loop words : ∀ acc,
  NoDup acc.*1 →
  let counts := fold_left (λ counts w, counter_incr w counts) words acc in
  NoDup counts.*1
  ∧ (∀ k, k ∈ counts.*1 ↔ k ∈ words ∨ k ∈ acc.*1)
  ∧ (∀ k, counts_get counts k = counts_get acc k + occurrences k words).
Proof.
  induction words as [|w words IH]; intros acc Hnd; simpl.
  - split_and!; [done|set_solver|]. intros k. unfold occurrences. simpl. lia.
  - destruct (IH (counter_incr w acc) (counter_incr_NoDup _ _ Hnd))
      as (Hnd' & Hin & Hget).
    split_and!; [done| |].
    + intros k. rewrite Hin, counter_incr_elem. set_solver.
    + intros k. rewrite Hget, counter_incr_get. unfold occurrences.
      rewrite filter_cons.
      destruct (decide (w = k)) as [->|Hne]; simpl; lia.
Qed.

Lemma Counter_NoDup words : NoDup (Counter words).*1.
Proof. apply (Counter_loop words []). constructor. Qed.

Lemma Counter_elem words k : k ∈ (Counter words).*1 ↔ k ∈ words.
Proof.
  destruct (Counter_loop words [] (NoDup_nil_2)) as (_ & Hin & _).
  unfold Counter. rewrite Hin. set_solver.
Qed.

Lemma Counter_get words k : counts_get (Counter words) k = occurrences k words.
Proof.
  destruct (Counter_loop words [] (NoDup_nil_2)) as (_ & _ & Hget).
  unfold Counter. rewrite Hget. reflexivity.
Qed.

End CounterFacts.

(** ** The sort *)

Section SortFacts.

Variable key : string → nat.

Lemma insert_desc_perm x l : insert_desc key x l ≡ₚ x :: l.
Proof.
  induction l as [|y l IH]; simpl; [done|].
  destruct (key y <=? key x); [done|].
  rewrite IH. apply Permutation_swap.
Qed.

Lemma sorted_reverse_perm l : sorted_reverse key l ≡ₚ l.
Proof.
  induction l as [|x l IH]; simpl; [done|].
  rewrite insert_desc_perm. by rewrite IH.
Qed.

Lemma insert_desc_descending x l :
  descending key l → descending key (insert_desc key x l).
Proof.
  unfold descending. induction 1 as [|y l Hl IH Hy]; simpl.
  - repeat constructor.
  - destruct (key y <=? key x) eqn:Hc.
    + apply Nat.leb_le in Hc. constructor; [by constructor|].
      constructor; [done|]. eapply Forall_impl; [exact Hy|].
      simpl. intros z Hz. lia.
    + apply Nat.leb_gt in Hc. constructor; [done|].
      rewrite insert_desc_perm. constructor; [lia|done].
Qed.

Lemma sorted_reverse_descending l : descending key (sorted_reverse key l).
Proof.
  induction l as [|x l IH]; simpl; [constructor|].
  by apply insert_desc_descending.
Qed.

Lemma descending_ext (key' : string → nat) l :
  (∀ w, key w = key' w) → descending key l → descending key' l.
Proof.
  unfold descending. intros Hk.
  induction 1 as [|x l Hl IH Hx]; constructor; [done|].
  eapply Forall_impl; [exact Hx|]. simpl. intros y. by rewrite !Hk.
Qed.

Lemma descending_lookup l i j x y :
  descending key l → i < j → l !! i = Some x → l !! j = Some y →
  key y ≤ key x.
Proof.
  unfold descending. intros Hs. revert i j.
  induction Hs as [|z l Hl IH Hz]; intros i j Hij Hi Hj; [done|].
  destruct i as [|i], j as [|j]; simpl in *; try lia.
  - injection Hi as ->. rewrite Forall_forall in Hz.
    apply Hz. by eapply list_elem_of_lookup_2.
  - apply (IH i j); [lia|done..].
Qed.

End SortFacts.

(** ** The vocabulary *)

Section VocabFacts.

Implicit Types (w : string) (l words : list string) (d : gmap string nat).

(** The dict comprehension, run from any dict [d] and any first index [k]. *)
Lemma vocab_to_int_loop l : ∀ k d, NoDup l → ∀ w i,
  fold_left (λ d p, <[p.2 := (p.1 + 1)]> d) (Py.enumerate_from k l) d !! w = Some i
  ↔ (∃ j, l !! j = Some w ∧ i = k + j + 1) ∨ ((w ∉ l) ∧ d !! w = Some i).
Proof.
  induction l as [|a l IH]; intros k d Hnd w i; simpl.
  - split; [intros H; right; split; [set_solver|done]|].
    intros [(j & Hj & _)|[_ H]]; [done|done].
  - apply NoDup_cons in Hnd as [Ha Hnd]. rewrite (IH _ _ Hnd). split.
    + intros [(j & Hj & ->)|[Hw Hd]].
      * left. exists (S j). split; [done|lia].
      * destruct (decide (a = w)) as [->|Hne].
        -- rewrite lookup_insert_eq in Hd. injection Hd as <-.
           left. exists 0. split; [done|lia].
        -- rewrite lookup_insert_ne in Hd by done.
           right. split; [set_solver|done].
    + intros [(j & Hj & ->)|[Hw Hd]].
      * destruct j as [|j]; simpl in Hj.
        -- injection Hj as ->. right. split; [done|].
           rewrite lookup_insert_eq. f_equal. lia.
        -- left. exists j. split; [done|lia].
      * right. split; [set_solver|].
        rewrite lookup_insert_ne by set_solver. done.
Qed.

Lemma vocab_to_int_of_lookup l w i :
  NoDup l →
  vocab_to_int_of l !! w = Some i ↔ ∃ j, l !! j = Some w ∧ i = j + 1.
Proof.
  intros Hnd. unfold vocab_to_int_of, Py.enumerate.
  rewrite (vocab_to_int_loop l 0 ∅ Hnd). split.
  - intros [(j & Hj & ->)|[_ H]]; [by exists j|by rewrite lookup_empty in H].
  - intros (j & Hj & ->). left. by exists j.
Qed.

Lemma vocab_perm words : vocab words ≡ₚ (Counter words).*1.
Proof. apply sorted_reverse_perm. Qed.

Lemma vocab_NoDup words : NoDup (vocab words).
Proof. rewrite vocab_perm. apply Counter_NoDup. Qed.

Lemma vocab_elem words w : w ∈ vocab words ↔ w ∈ words.
Proof. rewrite vocab_perm. apply Counter_elem. Qed.

Lemma vocab_length words :
  length (vocab words) = size (list_to_set words : gset string).
Proof.
  rewrite <- (size_list_to_set (C := gset string) (vocab words))
    by apply vocab_NoDup.
  f_equal. apply set_eq. intros w.
  rewrite !elem_of_list_to_set. apply vocab_elem.
Qed.

Lemma vocab_descending words :
  descending (λ w, occurrences w words) (vocab words).
Proof.
  eapply descending_ext; [|apply sorted_reverse_descending].
  intros w. apply Counter_get.
Qed.

Lemma vocab_to_int_lookup words w i :
  vocab_to_int words !! w = Some i ↔ ∃ j, vocab words !! j = Some w ∧ i = j + 1.
Proof. apply vocab_to_int_of_lookup, vocab_NoDup. Qed.

Lemma vocab_to_int_lookup_words words w :
  w ∈ words → is_Some (vocab_to_int words !! w).
Proof.
  intros (j & Hj)%vocab_elem%list_elem_of_lookup.
  exists (j + 1). apply vocab_to_int_lookup. by exists j.
Qed.

End VocabFacts.

(** C5. For every flat token list, [vocab_to_int] gives an id to exactly the
    tokens that occur in it, one id per token; the ids lie in 1..V, V being
    the number of distinct tokens; every id of 1..V is the id of some token;
    no two tokens share an id; and no token has id 0. *)
Theorem vocab_to_int_bijection (words : list string) :
  let d := vocab_to_int words in
  let V := size (list_to_set words : gset string) in
  (∀ w, w ∈ words ↔ is_Some (d !! w))
  ∧ (∀ w i, d !! w = Some i → 1 ≤ i ≤ V)
  ∧ (∀ i, 1 ≤ i ≤ V → ∃ w, w ∈ words ∧ d !! w = Some i)
  ∧ (∀ w1 w2 i, d !! w1 = Some i → d !! w2 = Some i → w1 = w2)
  ∧ (∀ w, d !! w ≠ Some 0)
  ∧ size d = V.
Proof.
  intros d V. subst d V. rewrite <- vocab_length.
  assert (Hran : ∀ w i, vocab_to_int words !! w = Some i →
                        1 ≤ i ≤ length (vocab words)).
  { intros w i (j & Hj & ->)%vocab_to_int_lookup.
    apply lookup_lt_Some in Hj. lia. }
  assert (Hsur : ∀ i, 1 ≤ i ≤ length (vocab words) →
                      ∃ w, w ∈ words ∧ vocab_to_int words !! w = Some i).
  { intros i Hi.
    destruct (lookup_lt_is_Some_2 (vocab words) (i - 1)) as [w Hw]; [lia|].
    exists w. split.
    - apply vocab_elem. by eapply list_elem_of_lookup_2.
    - apply vocab_to_int_lookup. exists (i - 1). split; [done|lia]. }
  assert (Hinj : ∀ w1 w2 i, vocab_to_int words !! w1 = Some i →
                            vocab_to_int words !! w2 = Some i → w1 = w2).
  { intros w1 w2 i (j1 & Hj1 & ->)%vocab_to_int_lookup
                   (j2 & Hj2 & Heq)%vocab_to_int_lookup.
    assert (j1 = j2) as -> by lia. congruence. }
  split_and!; [| exact Hran | exact Hsur | exact Hinj | |].
  - intros w. rewrite <- vocab_elem, list_elem_of_lookup. split.
    + intros [j Hj]. exists (j + 1). apply vocab_to_int_lookup. by exists j.
    + intros [i (j & Hj & _)%vocab_to_int_lookup]. by exists j.
  - intros w H. apply Hran in H. lia.
  - rewrite <- size_dom.
    rewrite <- (size_list_to_set (C := gset string) (vocab words))
      by apply vocab_NoDup.
    f_equal. apply set_eq. intros w.
    rewrite elem_of_dom, elem_of_list_to_set, list_elem_of_lookup. split.
    + intros [i (j & Hj & _)%vocab_to_int_lookup]. by exists j.
    + intros [j Hj]. exists (j + 1). apply vocab_to_int_lookup. by exists j.
Qed.

Lemma vocab_to_int_bijection_witness :
  vocab_to_int ["b"; "a"; "b"]%string !! "a"%string = Some 2
  ∧ 1 ≤ 2 ≤ size (list_to_set ["b"; "a"; "b"]%string : gset string).
Proof.
  assert (H : vocab_to_int ["b"; "a"; "b"]%string !! "a"%string = Some 2)
    by (vm_compute; reflexivity).
  split; [exact H|].
  exact (proj1 (proj2 (vocab_to_int_bijection ["b"; "a"; "b"]%string)) _ _ H).
Defined.

(** C6. The ids are monotone in frequency: a token that occurs strictly more
    often in the flat token stream than another has a strictly smaller id. *)
Theorem vocab_to_int_monotone (words : list string) (t1 t2 : string) (i1 i2 : nat) :
  vocab_to_int words !! t1 = Some i1 →
  vocab_to_int words !! t2 = Some i2 →
  occurrences t2 words < occurrences t1 words →
  i1 < i2.
Proof.
  intros (j1 & Hj1 & ->)%vocab_to_int_lookup (j2 & Hj2 & ->)%vocab_to_int_lookup Hlt.
  destruct (decide (j1 < j2)) as [|Hge]; [lia|]. exfalso.
  destruct (decide (j1 = j2)) as [->|Hne].
  - assert (t1 = t2) as -> by congruence. lia.
  - pose proof (descending_lookup _ _ j2 j1 t2 t1 (vocab_descending words)
                  ltac:(lia) Hj2 Hj1) as H.
    simpl in H. lia.
Qed.

Lemma vocab_to_int_monotone_witness :
  let words := ["the"; "film"; "the"; "plot"; "film"; "the"]%string in
  vocab_to_int words !! "the"%string = Some 1
  ∧ vocab_to_int words !! "plot"%string = Some 3
  ∧ occurrences "plot" words < occurrences "the" words
  ∧ 1 < 3.
Proof.
  intros words.
  assert (H1 : vocab_to_int words !! "the"%string = Some 1) by (vm_compute; reflexivity).
  assert (H2 : vocab_to_int words !! "plot"%string = Some 3) by (vm_compute; reflexivity).
  assert (H3 : occurrences "plot" words < occurrences "the" words) by (vm_compute; lia).
  split_and!; [exact H1|exact H2|exact H3|].
  exact (vocab_to_int_monotone words "the" "plot" 1 3 H1 H2 H3).
Defined.

(** ** Comprehensions that can raise *)

Section MapM.

Context {A B : Type} (f : A → result B).

Lemma mapM_Ok l k : mapM f l = Ok k ↔ Forall2 (λ x y, f x = Ok y) l k.
Proof.
  revert k. induction l as [|x l IH]; intros k; simpl.
  - split; [intros [= <-]; constructor|by inversion 1].
  - split.
    + destruct (f x) as [y|e] eqn:Hx; simpl; [|done].
      destruct (mapM f l) as [k'|e] eqn:Hl; simpl; [|done].
      intros [= <-]. constructor; [done|]. by apply IH.
    + inversion 1 as [|? y ? k' Hx Hl]; subst.
      apply IH in Hl. by rewrite Hx, Hl.
Qed.

Lemma mapM_Raise l x e0 :
  x ∈ l → f x = Raise e0 →
  ∃ x' e, x' ∈ l ∧ f x' = Raise e ∧ mapM f l = Raise e.
Proof.
  induction l as [|a l IH]; [by inversion 1|].
  intros Hin Hx. simpl.
  destruct (f a) as [y|e] eqn:Ha; simpl.
  - apply elem_of_cons in Hin as [->|Hin]; [congruence|].
    destruct (IH Hin Hx) as (x' & e & Hx' & He & Hm).
    exists x', e. split_and!; [set_solver|done|].
    by rewrite Hm.
  - exists a, e. split_and!; [set_solver|done..].
Qed.

End MapM.

(** ** Encoding *)

(** C8. A word that is not a key of the mapping makes the encoding of its
    review, and of the whole list of reviews, raise [KeyError] for a word
    that is missing; and an encoding that is returned has looked every word
    up: no word is given a default id. *)
Theorem encode_out_of_vocabulary (d : gmap string nat) (reviews : list string) :
  (∀ each word, each ∈ reviews → word ∈ Py.split_ws each → d !! word = None →
     (∃ w, encode_review d each = Raise (KeyError w) ∧ d !! w = None)
     ∧ (∃ w, encode_reviews d reviews = Raise (KeyError w) ∧ d !! w = None))
  ∧ (∀ reviews_ints, encode_reviews d reviews = Ok reviews_ints →
       Forall2 (λ each ids,
                  Forall2 (λ word i, d !! word = Some i) (Py.split_ws each) ids)
         reviews reviews_ints).
Proof.
  assert (Hword : ∀ w e, getitem d w = Raise e → e = KeyError w ∧ d !! w = None).
  { intros w e. unfold getitem. destruct (d !! w); [done|]. by intros [= <-]. }
  assert (Hone : ∀ each word, word ∈ Py.split_ws each → d !! word = None →
            ∃ w, encode_review d each = Raise (KeyError w) ∧ d !! w = None).
  { intros each word Hin Hnone.
    destruct (mapM_Raise (getitem d) (Py.split_ws each) word (KeyError word) Hin)
      as (w & e & _ & He & Hm).
    { unfold getitem. by rewrite Hnone. }
    apply Hword in He as [-> Hw]. by exists w. }
  split.
  - intros each word Heach Hin Hnone. split; [by eapply Hone|].
    destruct (Hone each word Hin Hnone) as (w & Hr & _).
    destruct (mapM_Raise (encode_review d) reviews each _ Heach Hr)
      as (each' & e & _ & He & Hm).
    unfold encode_review in He.
    destruct (mapM (getitem d) (Py.split_ws each')) as [ids|e'] eqn:Hids; [done|].
    injection He as ->.
    assert (∃ w', w' ∈ Py.split_ws each' ∧ getitem d w' = Raise e) as (w' & _ & Hw').
    { clear -Hids. induction (Py.split_ws each') as [|a l IH]; [done|].
      simpl in Hids. destruct (getitem d a) as [y|e0] eqn:Ha; simpl in Hids.
      - destruct (mapM (getitem d) l) as [k|e1]; [done|].
        injection Hids as ->. destruct IH as (w' & ? & ?); [done|].
        exists w'. set_solver.
      - injection Hids as ->. exists a. set_solver. }
    apply Hword in Hw' as [-> Hnone']. by exists w'.
  - intros reviews_ints Hok. apply mapM_Ok in Hok.
    eapply Forall2_impl; [exact Hok|]. simpl. intros each ids Hids.
    apply mapM_Ok in Hids. eapply Forall2_impl; [exact Hids|].
    simpl. intros word i. unfold getitem. destruct (d !! word); [|done].
    by intros [= ->].
Qed.

Lemma encode_out_of_vocabulary_witness :
  let d : gmap string nat := <["good"%string := 1]> ∅ in
  ∃ w, encode_reviews d ["good"; "good film"]%string = Raise (KeyError w)
       ∧ d !! w = None.
Proof.
  intros d.
  refine (proj2 (proj1 (encode_out_of_vocabulary d ["good"; "good film"]%string)
                   "good film"%string "film"%string _ _ _)).
  - vm_compute. right. left.
  - vm_compute. right. left.
  - vm_compute. reflexivity.
Defined.

(** ** Labels *)

Lemma split_by_nonempty sep s : Py.split_by sep s ≠ [].
Proof.
  destruct s as [|c s]; simpl; [done|].
  destruct (sep c); [done|]. by destruct (Py.split_by sep s).
Qed.

(** A separator at the very end leaves one more, empty, piece. *)
Lemma split_by_trailing sep c s :
  sep c = true →
  Py.split_by sep (s +:+ String c EmptyString) = Py.split_by sep s ++ [EmptyString].
Proof.
  intros Hc. induction s as [|a s IH]; simpl.
  - by rewrite Hc.
  - rewrite IH. destruct (sep a); [done|].
    pose proof (split_by_nonempty sep s).
    by destruct (Py.split_by sep s).
Qed.

(** C9. The label encoder gives 1 to the string [positive] and 0 to every
    other string, among them [negative], the empty string, and the empty last
    line that a trailing newline of the labels file produces; it is a total
    function whose values are 0 or 1, one per line of the file. The label
    vector holds, at each index, the code of the line at that index: 1
    exactly where the line is [positive], 0 exactly where it is any other
    string. *)
Theorem encode_label_spec :
  encode_label "positive" = 1
  ∧ encode_label "negative" = 0
  ∧ encode_label "" = 0
  ∧ (∀ each, each ≠ "positive"%string → encode_label each = 0)
  ∧ (∀ each, encode_label each = 0 ∨ encode_label each = 1)
  ∧ (∀ labels, Forall (λ v, v = 0 ∨ v = 1) (labels_of labels)
               ∧ length (labels_of labels) = length (Py.split Py.LF labels))
  ∧ (∀ labels, labels_of (labels +:+ String Py.LF EmptyString)
               = labels_of labels ++ [0])
  ∧ (∀ labels i each,
       Py.split Py.LF labels !! i = Some each →
       labels_of labels !! i = Some (encode_label each))
  ∧ (∀ labels i,
       labels_of labels !! i = Some 1
       ↔ Py.split Py.LF labels !! i = Some "positive"%string)
  ∧ (∀ labels i,
       labels_of labels !! i = Some 0
       ↔ ∃ each, Py.split Py.LF labels !! i = Some each
                 ∧ each ≠ "positive"%string)
  ∧ labels_of "positive" = [1]
  ∧ labels_of ("positive" +:+ String Py.LF "negative" +:+ String Py.LF "")
    = [1; 0; 0].
Proof.
  assert (H01 : ∀ each, encode_label each = 0 ∨ encode_label each = 1).
  { intros each. unfold encode_label. destruct (decide _); auto. }
  assert (Hat : ∀ labels i each,
            Py.split Py.LF labels !! i = Some each →
            labels_of labels !! i = Some (encode_label each)).
  { intros labels i each Hi. unfold labels_of.
    change (map encode_label (Py.split Py.LF labels))
      with (encode_label <$> Py.split Py.LF labels).
    by rewrite list_lookup_fmap, Hi. }
  assert (Hinv : ∀ labels i v,
            labels_of labels !! i = Some v →
            ∃ each, Py.split Py.LF labels !! i = Some each
                    ∧ v = encode_label each).
  { intros labels i v. unfold labels_of.
    change (map encode_label (Py.split Py.LF labels))
      with (encode_label <$> Py.split Py.LF labels).
    intros (each & -> & Hi)%list_lookup_fmap_Some. by exists each. }
  split_and!; try reflexivity.
  - intros each Hne. unfold encode_label. by rewrite decide_False.
  - exact H01.
  - intros labels. unfold labels_of. split; [|by rewrite length_map].
    apply Forall_forall. intros v (each & -> & _)%list_elem_of_fmap. apply H01.
  - intros labels. unfold labels_of, Py.split.
    rewrite split_by_trailing by apply Ascii.eqb_refl.
    by rewrite map_app.
  - exact Hat.
  - intros labels i. split.
    + intros (each & Hi & Hv)%Hinv. unfold encode_label in Hv.
      destruct (decide (each = "positive"%string)) as [->|]; [done|lia].
    + intros Hi. by rewrite (Hat _ _ _ Hi).
  - intros labels i. split.
    + intros (each & Hi & Hv)%Hinv. exists each. split; [done|].
      intros ->. discriminate Hv.
    + intros (each & Hi & Hne). rewrite (Hat _ _ _ Hi).
      unfold encode_label. by rewrite decide_False.
Qed.

Lemma encode_label_spec_witness :
  "Positive"%string ≠ "positive"%string ∧ encode_label "Positive" = 0.
Proof.
  assert (H : "Positive"%string ≠ "positive"%string) by discriminate.
  split; [exact H|].
  exact (proj1 (proj2 (proj2 (proj2 encode_label_spec))) "Positive"%string H).
Defined.

(** ** The zero-length filter *)

(** What the filter cell leaves behind, on every input the notebook runs
    through: the reviews that have a word, and one label per line of the
    labels file. *)
Lemma run_lengths (reviews labels : string) (nb : notebook) :
  run reviews labels = Ok nb →
  length (nb_reviews_ints nb)
  = length (filter (λ each, Py.split_ws each ≠ []) (reviews_of reviews))
  ∧ length (nb_labels nb) = length (Py.split Py.LF labels).
Proof.
  unfold run. intros Hrun.
  destruct (encode_reviews _ _) as [reviews_ints|] eqn:Henc; [|done].
  simpl in Hrun.
  destruct (features_of _) as [features|]; [|done]. simpl in Hrun.
  destruct (split _ _) as [sets|]; [|done]. simpl in Hrun.
  injection Hrun as <-. simpl. split.
  - apply mapM_Ok in Henc. unfold filter_nonempty.
    induction Henc as [|each ids rs rsi Hids _ IH]; [done|].
    rewrite !filter_cons. apply mapM_Ok, Forall2_length in Hids.
    destruct (Py.split_ws each) as [|w ws], ids as [|i ids]; try done.
    rewrite decide_True by done. rewrite decide_True by done.
    simpl. by rewrite IH.
  - unfold labels_of. by rewrite length_map.
Qed.

(** C1 (the code at a failing input). A corpus of three lines whose second
    line is empty, with three labels: the filter drops the empty review and
    keeps all three labels, so two encoded reviews face three labels, and
    the second review stands at the index of the label of the dropped one. *)
Theorem zero_length_filter_keeps_labels :
  let nl := String Py.LF EmptyString in
  let reviews := ("good" +:+ nl +:+ nl +:+ "bad")%string in
  let labels := ("positive" +:+ nl +:+ "negative" +:+ nl +:+ "positive")%string in
  ∃ nb, run reviews labels = Ok nb
        ∧ nb_reviews_ints nb = [[1]; [2]]
        ∧ nb_labels nb = [1; 0; 1]
        ∧ length (nb_reviews_ints nb) ≠ length (nb_labels nb).
Proof.
  intros nl reviews labels. eexists. split; [vm_compute; reflexivity|].
  split_and!; [reflexivity..|]. vm_compute. discriminate.
Qed.

(** ** Slices *)

Lemma clamp_nonneg (len : nat) (i : Z) :
  (0 ≤ i)%Z → Py.clamp len i = Z.to_nat i `min` len.
Proof.
  intros Hi. unfold Py.clamp.
  destruct (i <? 0)%Z eqn:Hneg; [apply Z.ltb_lt in Hneg; lia|]. lia.
Qed.

Lemma clamp_le (len : nat) (i : Z) : Py.clamp len i ≤ len.
Proof. unfold Py.clamp. lia. Qed.

Lemma slice_to_nonneg {A} (l : list A) (i : Z) :
  (0 ≤ i)%Z → Py.slice_to i l = take (Z.to_nat i) l.
Proof.
  intros Hi. unfold Py.slice_to. rewrite clamp_nonneg by done.
  destruct (decide (Z.to_nat i ≤ length l)).
  - f_equal. lia.
  - rewrite Nat.min_r by lia. rewrite !take_ge by lia. done.
Qed.

Lemma slice_from_nonneg {A} (l : list A) (i : Z) :
  (0 ≤ i)%Z → Py.slice_from i l = drop (Z.to_nat i) l.
Proof.
  intros Hi. unfold Py.slice_from. rewrite clamp_nonneg by done.
  destruct (decide (Z.to_nat i ≤ length l)).
  - f_equal. lia.
  - rewrite Nat.min_r by lia. rewrite !drop_ge by lia. done.
Qed.

Lemma slice_nonneg {A} (l : list A) (lo hi : Z) :
  (0 ≤ lo)%Z → (0 ≤ hi)%Z →
  Py.slice lo hi l = drop (Z.to_nat lo) (take (Z.to_nat hi) l).
Proof.
  intros Hlo Hhi. unfold Py.slice. rewrite !clamp_nonneg by done.
  destruct (decide (Z.to_nat hi ≤ length l)).
  - rewrite (Nat.min_l (Z.to_nat hi)) by lia.
    destruct (decide (Z.to_nat lo ≤ length l)).
    + by rewrite Nat.min_l by lia.
    + rewrite Nat.min_r by lia. rewrite !drop_ge; [done|rewrite length_take; lia..].
  - rewrite (Nat.min_r (Z.to_nat hi)) by lia. rewrite !take_ge by lia.
    destruct (decide (Z.to_nat lo ≤ length l)).
    + by rewrite Nat.min_l by lia.
    + rewrite Nat.min_r by lia. rewrite !drop_ge by lia. done.
Qed.

(** ** The feature matrix *)

Lemma framed_length each : length (framed each) = 200.
Proof.
  unfold framed. destruct (200 <=? length each) eqn:H.
  - apply Nat.leb_le in H. rewrite length_take. lia.
  - apply Nat.leb_gt in H. rewrite length_app, length_replicate. lia.
Qed.

(** One turn of the loop on a row that still holds its zeros. *)
Lemma frame_row_zero (written : list (list nat)) (rest : list (list nat))
    (each : list nat) :
  frame_row (written ++ replicate seq_len 0 :: rest) (length written, each)
  = Ok (written ++ framed each :: rest).
Proof.
  unfold frame_row, framed.
  rewrite list_lookup_middle by done.
  destruct (200 <=? length each) eqn:Hlen.
  - apply Nat.leb_le in Hlen.
    rewrite slice_to_nonneg by lia. unfold np_assign.
    rewrite decide_True
      by (rewrite length_take, length_replicate; unfold seq_len; lia).
    cbn [mbind result_bind]. f_equal.
    rewrite insert_app_r_alt by lia. by rewrite Nat.sub_diag.
  - apply Nat.leb_gt in Hlen.
    rewrite slice_from_nonneg by lia. rewrite clamp_nonneg by lia.
    rewrite length_replicate. unfold seq_len, np_assign.
    rewrite drop_replicate, take_replicate.
    rewrite decide_True by (rewrite length_replicate; lia).
    cbn [mbind result_bind]. f_equal.
    rewrite insert_app_r_alt by lia. rewrite Nat.sub_diag.
    cbn [insert list_insert].
    replace ((Z.to_nat (200 - Z.of_nat (length each)) `min` 200) `min` 200)
      with (200 - length each) by lia.
    reflexivity.
Qed.

(** The whole loop, from the point where the rows of [written] are written. *)
Lemma frame_loop (l : list (list nat)) : ∀ (written rest : list (list nat)),
  foldM frame_row (written ++ np_zeros (length l) seq_len ++ rest)
    (Py.enumerate_from (length written) l)
  = Ok (written ++ map framed l ++ rest).
Proof.
  induction l as [|each l IH]; intros written rest; [done|].
  cbn [Py.enumerate_from foldM length np_zeros replicate app map].
  fold (np_zeros (length l) seq_len).
  rewrite frame_row_zero. simpl.
  specialize (IH (written ++ [framed each]) rest).
  rewrite length_app, Nat.add_1_r in IH. simpl in IH.
  rewrite <- !(assoc_L (++)) in IH. exact IH.
Qed.

Lemma features_of_framed (reviews_ints : list (list nat)) :
  features_of reviews_ints = Ok (map framed reviews_ints).
Proof.
  pose proof (frame_loop reviews_ints [] []) as H.
  simpl in H. rewrite !app_nil_r in H. exact H.
Qed.

(** C2. The framing loop never raises, and row [i] of the matrix it returns
    has exactly 200 entries: the first 200 ids of review [i] when the review
    has 200 ids or more, and otherwise [200 - len] zeros followed by the ids
    of the review, in order. *)
Theorem features_of_spec (reviews_ints : list (list nat)) :
  ∃ features, features_of reviews_ints = Ok features
    ∧ length features = length reviews_ints
    ∧ Forall (λ row, length row = 200) features
    ∧ ∀ i each, reviews_ints !! i = Some each →
        ∃ row, features !! i = Some row
          ∧ length row = 200
          ∧ (200 ≤ length each → row = take 200 each)
          ∧ (length each < 200 →
             row = replicate (200 - length each) 0 ++ each).
Proof.
  exists (map framed reviews_ints). split_and!.
  - apply features_of_framed.
  - by rewrite length_map.
  - apply Forall_forall. intros row (each & -> & _)%list_elem_of_fmap.
    apply framed_length.
  - intros i each Hi. exists (framed each). split_and!.
    + by rewrite list_lookup_fmap, Hi.
    + apply framed_length.
    + intros Hlen. unfold framed.
      by rewrite (proj2 (Nat.leb_le _ _) Hlen).
    + intros Hlen. unfold framed.
      by rewrite (proj2 (Nat.leb_gt _ _) Hlen).
Qed.

Lemma features_of_spec_witness :
  ∃ features, features_of [[7; 8; 9]] = Ok features
    ∧ ∃ row, features !! 0 = Some row ∧ row = replicate 197 0 ++ [7; 8; 9].
Proof.
  destruct (features_of_spec [[7; 8; 9]]) as (features & Hf & _ & _ & Hrow).
  exists features. split; [exact Hf|].
  destruct (Hrow 0 [7; 8; 9] eq_refl) as (row & Hr & _ & _ & Hshort).
  exists row. split; [exact Hr|]. apply Hshort. simpl. lia.
Defined.

(** ** Batches *)

Section BatchFacts.

Context {X Y : Type}.
Implicit Types (x : list X) (y : list Y) (b ii : Z).

(** [collect] is the iteration of [next] until the generator stops. *)
Lemma collect_next (g : generator X Y) :
  collect g = match next g with
              | (Yield bx by_, g') => rest ← collect g'; Ok ((bx, by_) :: rest)
              | (StopIteration, _) => Ok []
              | (Raised e, _) => Raise e
              end.
Proof.
  destruct g as [x y b|x y b pending|]; simpl; [| |done].
  - destruct (prologue x y b) as [[[x' y'] pending]|e]; [|done].
    simpl. by destruct pending.
  - by destruct pending.
Qed.

(** Cutting a list of [q * n] elements into [q] pieces of [n]. *)
Lemma chunks_concat {A} (n : nat) : ∀ (q : nat) (l : list A),
  length l = q * n →
  concat (map (λ k, take n (drop (k * n) l)) (seq 0 q)) = l.
Proof.
  induction q as [|q IH]; intros l Hl.
  - by destruct l.
  - rewrite <- cons_seq, <- fmap_S_seq. simpl.
    rewrite <- list_fmap_compose.
    transitivity (take n l ++ drop n l); [|apply take_drop].
    f_equal.
    rewrite <- (IH (drop n l)) by (rewrite length_drop; lia).
    f_equal. apply list_fmap_ext. intros _ k _. simpl.
    by rewrite drop_drop.
Qed.

(** The body of [get_batches] up to its loop, for a positive batch size:
    [q] full batches are kept and the loop visits [0, b, ..., (q-1)*b]. *)
Lemma prologue_pos x y b :
  (0 < b)%Z →
  let q := Z.to_nat (Z.of_nat (length x) / b) in
  let n := Z.to_nat b in
  prologue x y b
  = Ok (take (q * n) x, take (q * n) y,
        map (λ k, Z.of_nat (k * n)) (seq 0 q)).
Proof.
  intros Hb q n. unfold prologue, Py.floordiv.
  rewrite (proj2 (Z.eqb_neq b 0)) by lia. cbn [mbind result_bind].
  pose proof (Z.div_pos (Z.of_nat (length x)) b ltac:(lia) Hb) as Hq.
  pose proof (Z.mul_div_le (Z.of_nat (length x)) b Hb) as Hle.
  assert (Hqn : Z.to_nat (Z.of_nat (length x) / b * b) = q * n).
  { subst q n. rewrite Z2Nat.inj_mul by lia. done. }
  rewrite !slice_to_nonneg by lia. rewrite Hqn.
  rewrite length_take, Nat.min_l by lia.
  unfold Py.range, Py.range_len.
  rewrite (proj2 (Z.eqb_neq b 0)) by lia.
  rewrite (proj2 (Z.ltb_lt 0 b)) by lia.
  cbn [mbind result_bind]. do 2 f_equal.
  replace (Z.of_nat (q * n) - 0 + b - 1)%Z
    with (Z.of_nat q * b + (b - 1))%Z by lia.
  rewrite Z.div_add_l, (Z.div_small (b - 1) b), Z.add_0_r, Nat2Z.id by lia.
  apply list_fmap_ext. intros _ k _. lia.
Qed.

Lemma batch_at_pos x y b (k : nat) :
  (0 < b)%Z →
  let n := Z.to_nat b in
  batch_at x y b (Z.of_nat (k * n))
  = (take n (drop (k * n) x), take n (drop (k * n) y)).
Proof.
  intros Hb n. unfold batch_at.
  rewrite !slice_nonneg by lia.
  replace (Z.to_nat (Z.of_nat (k * n) + b)) with (k * n + n) by lia.
  rewrite Nat2Z.id. by rewrite !take_drop_commute.
Qed.

Lemma collect_pos x y b :
  (0 < b)%Z →
  let q := Z.to_nat (Z.of_nat (length x) / b) in
  let n := Z.to_nat b in
  collect (get_batches x y b)
  = Ok (map (λ k, (take n (drop (k * n) (take (q * n) x)),
                   take n (drop (k * n) (take (q * n) y))))
          (seq 0 q)).
Proof.
  intros Hb q n. unfold get_batches, collect.
  rewrite prologue_pos by done. cbn [mbind result_bind]. f_equal.
  rewrite <- list_fmap_compose. apply list_fmap_ext. intros _ k _.
  simpl. by rewrite batch_at_pos.
Qed.

End BatchFacts.

(** C3. For a positive batch size [b] and [n] rows with as many labels,
    [get_batches] yields exactly [n // b] batches and then stops; every batch
    has exactly [b] rows and [b] labels; the rows yielded are, in order, the
    first [(n // b) * b] rows, so that many rows are yielded in all. With
    [b = 3] and seven rows it yields the batches of rows 1-3 and 4-6, and
    the seventh row is in no batch. *)
Theorem get_batches_full_batches {X Y : Type} :
  (∀ (x : list X) (y : list Y) (b : Z),
     (0 < b)%Z → length y = length x →
     ∃ batches,
       collect (get_batches x y b) = Ok batches
       ∧ Z.of_nat (length batches) = (Z.of_nat (length x) / b)%Z
       ∧ Forall (λ p, Z.of_nat (length p.1) = b ∧ Z.of_nat (length p.2) = b)
           batches
       ∧ Z.of_nat (length (concat batches.*1))
         = (Z.of_nat (length x) / b * b)%Z
       ∧ concat batches.*1 = take (length (concat batches.*1)) x
       ∧ concat batches.*2 = take (length (concat batches.*1)) y)
  ∧ (∀ (r1 r2 r3 r4 r5 r6 r7 : X) (l1 l2 l3 l4 l5 l6 l7 : Y),
       collect (get_batches [r1; r2; r3; r4; r5; r6; r7]
                  [l1; l2; l3; l4; l5; l6; l7] 3)
       = Ok [([r1; r2; r3], [l1; l2; l3]); ([r4; r5; r6], [l4; l5; l6])]).
Proof.
  split; [|reflexivity].
  intros x y b Hb Hxy.
  set (q := Z.to_nat (Z.of_nat (length x) / b)).
  set (n := Z.to_nat b).
  pose proof (Z.div_pos (Z.of_nat (length x)) b ltac:(lia) Hb) as Hq.
  pose proof (Z.mul_div_le (Z.of_nat (length x)) b Hb) as Hle.
  assert (Hqn : q * n ≤ length x).
  { subst q n. apply Nat2Z.inj_le. rewrite Nat2Z.inj_mul, !Z2Nat.id; lia. }
  eexists. split; [by apply collect_pos|]. fold q n.
  assert (Hx : concat ((λ k, take n (drop (k * n) (take (q * n) x)))
                         <$> seq 0 q) = take (q * n) x).
  { apply (chunks_concat n q (take (q * n) x)). rewrite length_take. lia. }
  assert (Hy : concat ((λ k, take n (drop (k * n) (take (q * n) y)))
                         <$> seq 0 q) = take (q * n) y).
  { apply (chunks_concat n q (take (q * n) y)). rewrite length_take. lia. }
  rewrite <- !list_fmap_compose. unfold compose. cbn [fst snd].
  rewrite Hx, Hy, length_take, Nat.min_l by lia.
  split_and!; [| | |done..].
  - rewrite length_map, length_seq. subst q. lia.
  - apply Forall_forall. intros p (k & -> & Hk)%list_elem_of_fmap.
    apply elem_of_seq in Hk. cbn [fst snd].
    rewrite !length_take, !length_drop, !length_take.
    assert ((k + 1) * n ≤ q * n) by (apply Nat.mul_le_mono_r; lia).
    subst n. lia.
  - subst q n. lia.
Qed.

Lemma get_batches_full_batches_witness :
  ∃ batches,
    collect (get_batches [1; 2; 3; 4; 5] [0; 1; 0; 1; 1] 2) = Ok batches
    ∧ Z.of_nat (length batches) = 2%Z.
Proof.
  destruct (proj1 (@get_batches_full_batches nat nat)
              [1; 2; 3; 4; 5] [0; 1; 0; 1; 1] 2%Z ltac:(lia) eq_refl)
    as (batches & Hb & Hlen & _).
  exists batches. split; [exact Hb|]. exact Hlen.
Defined.

(** C10. With fewer rows than the batch size (and at least one row)
    [get_batches] yields nothing and raises nothing; with batch size 0 its
    first step, the division [len(x)//batch_size], raises
    [ZeroDivisionError], whatever the rows are. *)
Theorem get_batches_small_and_zero {X Y : Type} :
  (∀ (x : list X) (y : list Y) (b : Z),
     0 < length x → (Z.of_nat (length x) < b)%Z →
     collect (get_batches x y b) = Ok []
     ∧ next (get_batches x y b) = (StopIteration, Finished))
  ∧ (∀ (x : list X) (y : list Y),
       next (get_batches x y 0) = (Raised ZeroDivisionError, Finished)
       ∧ collect (get_batches x y 0) = Raise ZeroDivisionError).
Proof.
  split; [|done].
  intros x y b Hx Hb.
  assert (Hc : collect (get_batches x y b) = Ok []).
  { rewrite collect_pos by lia. by rewrite Z.div_small by lia. }
  split; [exact Hc|].
  unfold get_batches, next. rewrite prologue_pos by lia.
  by rewrite Z.div_small by lia.
Qed.

Lemma get_batches_small_and_zero_witness :
  collect (get_batches [1; 2] [0; 1] 500) = Ok [].
Proof.
  exact (proj1 (proj1 (@get_batches_small_and_zero nat nat) [1; 2] [0; 1] 500%Z ltac:(simpl; lia) ltac:(simpl; lia))).
Defined.

(** C7 (the claim at a concrete input). Seven rows with [batch_size = -3]:
    the call is not rejected, neither when the generator is made nor when it
    is run; it yields no batch and raises nothing. *)
Lemma negative_batch_size_not_rejected :
  let g := get_batches [1; 2; 3; 4; 5; 6; 7] [1; 0; 1; 0; 1; 0; 1] (-3) in
  next g = (StopIteration, Finished)
  ∧ collect g = Ok []
  ∧ ¬ ∃ e, collect g = Raise e.
Proof.
  intros g. split_and!; [reflexivity..|]. intros [e He]. discriminate He.
Qed.

Lemma range_len_neg_step (stop step : Z) :
  (0 ≤ stop)%Z → (step < 0)%Z → Py.range_len 0 stop step = 0.
Proof.
  intros Hstop Hstep. unfold Py.range_len.
  rewrite (proj2 (Z.ltb_ge 0 step)) by lia.
  destruct (decide (0 ≤ 0 - stop - step - 1)%Z).
  - rewrite Z.div_small by lia. done.
  - pose proof (Z.div_lt_upper_bound (0 - stop - step - 1) (- step) 0
                  ltac:(lia) ltac:(lia)).
    lia.
Qed.

(** C7, as the code has it. Nothing is validated when the pipeline is set
    up. A call of [get_batches] only makes a generator, whatever the batch
    size; a negative batch size is never rejected: the generator stops at
    once, with no batch and no error; batch size 0 is reported only when the
    first batch is asked for, by the [ZeroDivisionError] of the division. The
    target length is the constant 200 of the framing loop, which accepts
    every list of encoded reviews. *)
Theorem no_eager_validation {X Y : Type} :
  (∀ (x : list X) (y : list Y) (b : Z), get_batches x y b = Created x y b)
  ∧ (∀ (x : list X) (y : list Y) (b : Z),
       (b < 0)%Z →
       next (get_batches x y b) = (StopIteration, Finished)
       ∧ collect (get_batches x y b) = Ok [])
  ∧ (∀ (x : list X) (y : list Y),
       next (get_batches x y 0) = (Raised ZeroDivisionError, Finished))
  ∧ (∀ reviews_ints, ∃ features,
       features_of reviews_ints = Ok features
       ∧ Forall (λ row, length row = seq_len) features).
Proof.
  split_and!; [done| |done|].
  - intros x y b Hb.
    assert (Hp : ∃ x' y', prologue x y b = Ok (x', y', [])).
    { unfold prologue, Py.floordiv, Py.range.
      rewrite (proj2 (Z.eqb_neq b 0)) by lia. cbn [mbind result_bind].
      rewrite range_len_neg_step by lia. by eauto. }
    destruct Hp as (x' & y' & Hp). unfold get_batches, next, collect.
    by rewrite Hp.
  - intros reviews_ints.
    exists (map framed reviews_ints). split; [apply features_of_framed|].
    apply Forall_forall. intros row (each & -> & _)%list_elem_of_fmap.
    apply framed_length.
Qed.

Lemma no_eager_validation_witness :
  collect (get_batches [1; 2; 3] [1; 0; 1] (-1)) = Ok [].
Proof.
  exact (proj2 (proj1 (proj2 (@no_eager_validation nat nat))
                  [1; 2; 3] [1; 0; 1] (-1)%Z ltac:(lia))).
Defined.

(** ** Binary64 arithmetic *)

Section FloatFacts.

Local Open Scope Z_scope.

Lemma fexp_eq (e : Z) : fexp Float.prec Float.emax e = Z.max (e - 53) (-1074).
Proof. reflexivity. Qed.

(** The number of binary digits of a positive number. *)
Lemma digits2_bounds (p : positive) :
  2 ^ (Z.pos (digits2_pos p) - 1) ≤ Z.pos p < 2 ^ Z.pos (digits2_pos p).
Proof.
  induction p as [p IH|p IH|]; simpl; [| |lia].
  - rewrite Pos2Z.inj_succ, Z.pow_succ_r by lia.
    replace (Z.succ (Z.pos (digits2_pos p)) - 1)
      with (Z.succ (Z.pos (digits2_pos p) - 1)) by lia.
    rewrite Z.pow_succ_r by lia. lia.
  - rewrite Pos2Z.inj_succ, Z.pow_succ_r by lia.
    replace (Z.succ (Z.pos (digits2_pos p)) - 1)
      with (Z.succ (Z.pos (digits2_pos p) - 1)) by lia.
    rewrite Z.pow_succ_r by lia. lia.
Qed.

Lemma digits2_unique (p : positive) (D : Z) :
  2 ^ (D - 1) ≤ Z.pos p < 2 ^ D → Z.pos (digits2_pos p) = D.
Proof.
  intros [Hlo Hhi]. pose proof (digits2_bounds p) as [Hlo' Hhi'].
  assert (0 < D).
  { destruct (decide (0 < D)); [done|].
    assert (2 ^ D ≤ 1); [|lia].
    destruct (decide (D = 0)) as [->|]; [done|].
    rewrite Z.pow_neg_r by lia. lia. }
  assert (D - 1 < Z.pos (digits2_pos p)).
  { apply (Z.pow_lt_mono_r_iff 2); lia. }
  assert (Z.pos (digits2_pos p) - 1 < D).
  { apply (Z.pow_lt_mono_r_iff 2); lia. }
  lia.
Qed.

Lemma iter_xO (p n : positive) :
  Z.pos (Pos.iter xO p n) = Z.pos p * 2 ^ Z.pos n.
Proof.
  induction n as [|n IH] using Pos.peano_ind.
  - simpl. lia.
  - rewrite Pos.iter_succ, Pos2Z.inj_succ, Z.pow_succ_r by lia.
    rewrite Pos2Z.inj_xO, IH. lia.
Qed.

Lemma shr_1_m (mrs : shr_record) :
  0 ≤ shr_m mrs → shr_m (shr_1 mrs) = shr_m mrs / 2.
Proof.
  destruct mrs as [m r s]. cbn [shr_m]. intros Hm.
  rewrite <- Z.div2_div. by destruct m as [|[p|p|]|p].
Qed.

Lemma iter_shr_m (p : positive) : ∀ mrs,
  0 ≤ shr_m mrs → shr_m (SpecFloat.iter_pos shr_1 p mrs) = shr_m mrs / 2 ^ Z.pos p.
Proof.
  assert (Hnn : ∀ mrs, 0 ≤ shr_m mrs → 0 ≤ shr_m (shr_1 mrs)).
  { intros mrs H. rewrite shr_1_m by done. apply Z.div_pos; lia. }
  induction p as [p IH|p IH|]; intros mrs Hm; simpl.
  - assert (H1 : 0 ≤ shr_m (SpecFloat.iter_pos shr_1 p (shr_1 mrs))).
    { rewrite IH by auto. apply Z.div_pos; [auto|lia]. }
    rewrite IH, IH, shr_1_m by auto.
    rewrite !Z.div_div by lia. f_equal.
    assert (2 ^ Z.pos p~1 = 2 * 2 ^ Z.pos p * 2 ^ Z.pos p) as ->; [|lia].
    rewrite <- Z.pow_succ_r, <- Z.pow_add_r by lia. f_equal. lia.
  - assert (H1 : 0 ≤ shr_m (SpecFloat.iter_pos shr_1 p mrs)).
    { rewrite IH by auto. apply Z.div_pos; [auto|lia]. }
    rewrite IH, IH by auto.
    rewrite !Z.div_div by lia. f_equal.
    assert (2 ^ Z.pos p~0 = 2 ^ Z.pos p * 2 ^ Z.pos p) as ->; [|lia].
    rewrite <- Z.pow_add_r by lia. f_equal. lia.
  - rewrite shr_1_m by done. done.
Qed.

Lemma round_nearest_even_cases (m : Z) (l : location) :
  round_nearest_even m l = m ∨ round_nearest_even m l = m + 1.
Proof.
  destruct l as [|[]]; simpl; auto. destruct (Z.even m); auto.
Qed.

(** Rounding a 53-digit mantissa in range leaves it as it is. *)
Lemma binary_round_aux_exact (s : bool) (m : positive) (e : Z) :
  Z.pos (digits2_pos m) = 53 → -1074 ≤ e ≤ 971 →
  binary_round_aux Float.prec Float.emax s (Z.pos m) e loc_Exact
  = S754_finite s m e.
Proof.
  intros Hd He. unfold binary_round_aux, shr_fexp.
  cbn [Zdigits2 shr_record_of_loc]. rewrite Hd, fexp_eq.
  replace (Z.max (53 + e - 53) (-1074) - e) with 0 by lia.
  cbn [shr shr_m loc_of_shr_record round_nearest_even Zdigits2].
  rewrite Hd, fexp_eq.
  replace (Z.max (53 + e - 53) (-1074) - e) with 0 by lia.
  cbn [shr shr_m]. change (Float.emax - Float.prec) with 971.
  by rewrite (proj2 (Z.leb_le e 971)) by lia.
Qed.

(** Rounding a mantissa of [53 + k] digits: [k] digits are shifted out, the
    quotient is kept or incremented, and an increment that reaches [2^53]
    costs one more shift. *)
Lemma binary_round_aux_shift (s : bool) (m : positive) (e k : Z) :
  Z.pos (digits2_pos m) = 53 + k → 0 < k → -1074 ≤ e + k ≤ 970 →
  ∃ m' e' r,
    binary_round_aux Float.prec Float.emax s (Z.pos m) e loc_Exact
    = S754_finite s m' e'
    ∧ (r = Z.pos m / 2 ^ k ∨ r = Z.pos m / 2 ^ k + 1)
    ∧ ((e' = e + k ∧ Z.pos m' = r) ∨ (e' = e + k + 1 ∧ r = 2 * Z.pos m')).
Proof.
  intros Hd Hk He. pose proof (digits2_bounds m) as [Hlo Hhi].
  rewrite Hd in Hlo, Hhi.
  replace (53 + k - 1) with (k + 52) in Hlo by lia.
  replace (53 + k) with (k + 53) in Hhi by lia.
  rewrite Z.pow_add_r in Hlo, Hhi by lia.
  assert (Hq : 2 ^ 52 ≤ Z.pos m / 2 ^ k < 2 ^ 53).
  { split.
    - apply Z.div_le_lower_bound; lia.
    - apply Z.div_lt_upper_bound; lia. }
  unfold binary_round_aux, shr_fexp.
  cbn [Zdigits2 shr_record_of_loc]. rewrite Hd, fexp_eq.
  replace (Z.max (53 + k + e - 53) (-1074) - e) with k by lia.
  destruct k as [|kp|kp]; try lia. cbn [shr].
  set (mrs := SpecFloat.iter_pos shr_1 kp _).
  assert (Hm : shr_m mrs = Z.pos m / 2 ^ Z.pos kp).
  { subst mrs. by rewrite iter_shr_m. }
  set (r := round_nearest_even (shr_m mrs) (loc_of_shr_record mrs)).
  assert (Hr : r = Z.pos m / 2 ^ Z.pos kp ∨ r = Z.pos m / 2 ^ Z.pos kp + 1).
  { subst r. rewrite <- Hm. apply round_nearest_even_cases. }
  clearbody r. clear mrs Hm.
  destruct r as [|pr|pr]; try lia.
  destruct (decide (Z.pos pr < 2 ^ 53)) as [Hlt|Hge].
  - assert (Hdr : Z.pos (digits2_pos pr) = 53).
    { apply digits2_unique. change (53 - 1) with 52. lia. }
    cbn [Zdigits2]. rewrite Hdr, fexp_eq.
    replace (Z.max (53 + (e + Z.pos kp) - 53) (-1074) - (e + Z.pos kp))
      with 0 by lia.
    cbn [shr shr_m]. change (Float.emax - Float.prec) with 971.
    rewrite (proj2 (Z.leb_le _ 971)) by lia.
    exists pr, (e + Z.pos kp), (Z.pos pr). auto.
  - assert (Hpr : Z.pos pr = 2 ^ 53) by lia.
    change (2 ^ 53) with 9007199254740992 in Hpr. injection Hpr as ->.
    cbn [Zdigits2].
    change (Z.pos (digits2_pos 9007199254740992)) with 54.
    rewrite fexp_eq.
    replace (Z.max (54 + (e + Z.pos kp) - 53) (-1074) - (e + Z.pos kp))
      with 1 by lia.
    cbn [shr SpecFloat.iter_pos shr_1 shr_m].
    change (Float.emax - Float.prec) with 971.
    rewrite (proj2 (Z.leb_le _ 971)) by lia.
    exists 4503599627370496%positive, (e + Z.pos kp + 1), 9007199254740992.
    split_and!; [done|exact Hr|]. right. done.
Qed.

(** [int] of the rounded product, whose exponent is negative: the floor of
    the rounded mantissa [r] scaled by [2^e], with or without the extra
    shift. *)
Lemma to_int_shifted (m' : positive) (e' e r : Z) :
  e < 0 →
  (e' = e ∧ Z.pos m' = r) ∨ (e' = e + 1 ∧ r = 2 * Z.pos m') →
  Float.to_int (S754_finite false m' e') = Ok (r / 2 ^ (- e)).
Proof.
  intros He [[-> <-]|[-> ->]]; unfold Float.to_int.
  - by rewrite (proj2 (Z.leb_gt 0 e)) by lia.
  - destruct (decide (e = -1)) as [->|Hne].
    + change (-1 + 1) with 0. change (- (-1)) with 1.
      change (0 <=? 0) with true. cbv iota. f_equal.
      change (2 ^ 0) with 1. change (2 ^ 1) with 2.
      rewrite (Z.mul_comm 2), Z.div_mul by lia. lia.
    + rewrite (proj2 (Z.leb_gt 0 (e + 1))) by lia. f_equal.
      replace (- e) with (1 + - (e + 1)) by lia.
      rewrite Z.pow_add_r by lia. change (2 ^ 1) with 2.
      rewrite Z.div_mul_cancel_l by lia. done.
Qed.

(** An [int] below [2^53] is converted exactly, to a 53-digit mantissa. *)
Lemma of_int_exact (n : Z) :
  0 < n < 2 ^ 53 →
  ∃ (m : positive) (d : Z),
    Float.of_int n = Ok (S754_finite false m (d - 53))
    ∧ 1 ≤ d ≤ 53
    ∧ 2 ^ (d - 1) ≤ n < 2 ^ d
    ∧ Z.pos m = n * 2 ^ (53 - d)
    ∧ Z.pos (digits2_pos m) = 53.
Proof.
  intros [Hpos Hn]. destruct n as [|p|p]; try lia.
  pose proof (digits2_bounds p) as Hb.
  set (d := Z.pos (digits2_pos p)) in *.
  assert (Hd : 1 ≤ d ≤ 53).
  { split; [subst d; lia|].
    assert (d - 1 < 53); [|lia]. apply (Z.pow_lt_mono_r_iff 2); lia. }
  assert (Hal : ∃ m, shl_align p 0 (d - 53) = (m, d - 53)
                     ∧ Z.pos m = Z.pos p * 2 ^ (53 - d)).
  { unfold shl_align. destruct (d - 53 - 0) as [|dd|dd] eqn:Hdd; try lia.
    - exists p. replace (d - 53) with 0 by lia. split; [done|].
      replace (53 - d) with 0 by lia. lia.
    - exists (Pos.iter xO p dd). split; [done|].
      rewrite iter_xO. do 2 f_equal. lia. }
  destruct Hal as (m & Hal & Hm).
  assert (Hdm : Z.pos (digits2_pos m) = 53).
  { apply digits2_unique. rewrite Hm. change (53 - 1) with 52.
    assert (2 ^ 52 = 2 ^ (d - 1) * 2 ^ (53 - d)) as ->
      by (rewrite <- Z.pow_add_r by lia; f_equal; lia).
    assert (2 ^ 53 = 2 ^ d * 2 ^ (53 - d)) as ->
      by (rewrite <- Z.pow_add_r by lia; f_equal; lia).
    assert (0 < 2 ^ (53 - d)) by (apply Z.pow_pos_nonneg; lia).
    split; [apply Z.mul_le_mono_nonneg_r; lia|
            apply Z.mul_lt_mono_pos_r; lia]. }
  exists m, d. split_and!; try done; try lia.
  unfold Float.of_int, binary_normalize, binary_round.
  rewrite fexp_eq. fold d.
  replace (Z.max (d + 0 - 53) (-1074)) with (d - 53) by lia.
  rewrite Hal. by rewrite binary_round_aux_exact by lia.
Qed.

(** [int(n * c)] for a constant [c = M / 2^53] in [[1/2, 1)]: the result
    is the integer [K] as soon as [n * c] lies in [[K, K + 1)] with a
    margin of [2^-3] below [K + 1]. *)
Lemma int_mul_const (n M K : Z) :
  0 < n < 2 ^ 50 → 2 ^ 52 ≤ M < 2 ^ 53 →
  K * 2 ^ 53 ≤ n * M → n * M + 2 ^ 50 < (K + 1) * 2 ^ 53 →
  Float.int_mul n (S754_finite false (Z.to_pos M) (-53)) = Ok K.
Proof.
  intros Hn HM Hlo Hhi.
  destruct (of_int_exact n) as (m & d & Hof & Hd & Hnd & Hm & Hdm); [lia|].
  assert (Hd50 : d ≤ 50).
  { assert (d - 1 < 50); [|lia]. apply (Z.pow_lt_mono_r_iff 2); lia. }
  pose proof (digits2_bounds m) as Hmb. rewrite Hdm in Hmb.
  change (53 - 1) with 52 in Hmb.
  unfold Float.int_mul. rewrite Hof. cbn [mbind result_bind].
  unfold Float.mul, SFmul. cbn [xorb].
  set (P := (m * Z.to_pos M)%positive).
  assert (HP : Z.pos P = Z.pos m * M).
  { subst P. rewrite Pos2Z.inj_mul, Z2Pos.id; lia. }
  pose proof (digits2_bounds P) as HPb.
  set (D := Z.pos (digits2_pos P)) in *.
  assert (HPr : 2 ^ 104 ≤ Z.pos P < 2 ^ 106).
  { rewrite HP. change (2 ^ 104) with (2 ^ 52 * 2 ^ 52).
    change (2 ^ 106) with (2 ^ 53 * 2 ^ 53). split.
    - apply Z.mul_le_mono_nonneg; lia.
    - apply Z.mul_lt_mono_nonneg; lia. }
  assert (HD : D = 105 ∨ D = 106).
  { assert (D - 1 < 106) by (apply (Z.pow_lt_mono_r_iff 2); lia).
    assert (104 < D) by (apply (Z.pow_lt_mono_r_iff 2); lia).
    lia. }
  set (k := D - 53).
  destruct (binary_round_aux_shift false P (d - 53 + -53) k)
    as (m' & e' & r & Hround & Hr & Hme); [lia..|].
  rewrite Hround.
  rewrite (to_int_shifted m' e' (d - 53 + -53 + k) r) by (done || lia).
  f_equal.
  set (t := - (d - 53 + -53 + k)).
  assert (Ht : 0 ≤ t) by lia.
  set (S := 2 ^ (53 - d)).
  assert (HS : 0 < S) by (apply Z.pow_pos_nonneg; lia).
  assert (Htk : 2 ^ t * 2 ^ k = S * 2 ^ 53).
  { subst S. rewrite <- !Z.pow_add_r by lia. f_equal. lia. }
  assert (Hk50 : 2 ^ k ≤ S * 2 ^ 50).
  { transitivity (2 ^ 53); [apply Z.pow_le_mono_r; lia|].
    assert (2 ^ 53 = S * 2 ^ d) as ->
      by (subst S; rewrite <- Z.pow_add_r by lia; f_equal; lia).
    apply Z.mul_le_mono_nonneg_l; [lia|].
    apply Z.pow_le_mono_r; lia. }
  assert (HPS : Z.pos P = S * (n * M)) by (rewrite HP, Hm; subst S; lia).
  assert (Htpos : 0 < 2 ^ t) by (apply Z.pow_pos_nonneg; lia).
  assert (Hkpos : 0 < 2 ^ k) by (apply Z.pow_pos_nonneg; lia).
  assert (HqL : K * 2 ^ t ≤ Z.pos P / 2 ^ k).
  { apply Z.div_le_lower_bound; [done|].
    rewrite HPS.
    replace (2 ^ k * (K * 2 ^ t)) with (K * (2 ^ t * 2 ^ k)) by lia.
    rewrite Htk.
    replace (K * (S * 2 ^ 53)) with (S * (K * 2 ^ 53)) by lia.
    apply Z.mul_le_mono_nonneg_l; lia. }
  assert (HqU : Z.pos P / 2 ^ k < (K + 1) * 2 ^ t - 1).
  { apply Z.div_lt_upper_bound; [done|].
    rewrite HPS.
    replace (2 ^ k * ((K + 1) * 2 ^ t - 1))
      with ((K + 1) * (2 ^ t * 2 ^ k) - 2 ^ k) by lia.
    rewrite Htk.
    assert (S * (n * M) + S * 2 ^ 50 < S * ((K + 1) * 2 ^ 53)); [|lia].
    rewrite <- Z.mul_add_distr_l. apply Z.mul_lt_mono_pos_l; lia. }
  symmetry. apply (Z.div_unique_pos _ _ _ (r - K * 2 ^ t)); lia.
Qed.

Lemma int_mul_0_8 (n : Z) :
  0 ≤ n < 2 ^ 50 → Float.int_mul n Float.lit_0_8 = Ok (4 * n / 5).
Proof.
  intros Hn. destruct (decide (n = 0)) as [->|Hne]; [reflexivity|].
  change (2 ^ 50) with 1125899906842624 in Hn.
  pose proof (Z.mul_div_le (4 * n) 5 ltac:(lia)).
  pose proof (Z.mul_succ_div_gt (4 * n) 5 ltac:(lia)).
  apply (int_mul_const n 7205759403792794 (4 * n / 5)).
  - change (2 ^ 50) with 1125899906842624. lia.
  - done.
  - change (2 ^ 53) with 9007199254740992. lia.
  - change (2 ^ 53) with 9007199254740992.
    change (2 ^ 50) with 1125899906842624. lia.
Qed.

Lemma int_mul_0_5 (n : Z) :
  0 ≤ n < 2 ^ 50 → Float.int_mul n Float.lit_0_5 = Ok (n / 2).
Proof.
  intros Hn. destruct (decide (n = 0)) as [->|Hne]; [reflexivity|].
  change (2 ^ 50) with 1125899906842624 in Hn.
  pose proof (Z.mul_div_le n 2 ltac:(lia)).
  pose proof (Z.mul_succ_div_gt n 2 ltac:(lia)).
  apply (int_mul_const n 4503599627370496 (n / 2)).
  - change (2 ^ 50) with 1125899906842624. lia.
  - done.
  - change (2 ^ 53) with 9007199254740992. lia.
  - change (2 ^ 53) with 9007199254740992.
    change (2 ^ 50) with 1125899906842624. lia.
Qed.

(** The two literals are the doubles nearest to 8/10 and to 1/2. *)
Lemma literals_nearest :
  SFdiv Float.prec Float.emax
    (binary_normalize Float.prec Float.emax 8 0 false)
    (binary_normalize Float.prec Float.emax 10 0 false) = Float.lit_0_8
  ∧ SFdiv Float.prec Float.emax
      (binary_normalize Float.prec Float.emax 1 0 false)
      (binary_normalize Float.prec Float.emax 2 0 false) = Float.lit_0_5.
Proof. split; vm_compute; reflexivity. Qed.

(** Beyond [2^50] the rounding of the product can reach the next integer:
    the bound of [int_mul_0_8] cannot simply be dropped. *)
Lemma int_mul_0_8_beyond :
  let n := 2062025796710606 in
  2 ^ 50 ≤ n ∧ Float.int_mul n Float.lit_0_8 = Ok (4 * n / 5 + 1).
Proof. split; [vm_compute; discriminate|vm_compute; reflexivity]. Qed.

End FloatFacts.

(** ** Training, validation and test sets *)

Lemma split_idx_floor (features : list (list nat)) :
  (Z.of_nat (length features) < 2 ^ 50)%Z →
  split_idx features = Ok (Z.of_nat (4 * length features / 5)).
Proof.
  intros Hn. unfold split_idx. rewrite int_mul_0_8 by lia.
  f_equal. rewrite Nat2Z.inj_div, Nat2Z.inj_mul. done.
Qed.

Lemma test_idx_floor (val_x : list (list nat)) :
  (Z.of_nat (length val_x) < 2 ^ 50)%Z →
  test_idx val_x = Ok (Z.of_nat (length val_x / 2)).
Proof.
  intros Hn. unfold test_idx. rewrite int_mul_0_5 by lia.
  f_equal. by rewrite Nat2Z.inj_div.
Qed.

(** The split, with its two cut indices. *)
Lemma split_cuts (features : list (list nat)) (labels : list nat) :
  (Z.of_nat (length features) < 2 ^ 50)%Z →
  let n := length features in
  let a := 4 * n / 5 in
  let b := (n - a) / 2 in
  split features labels
  = Ok {| train_x := take a features; train_y := take a labels;
          val_x := take b (drop a features);
          val_y := take b (drop a labels);
          test_x := drop b (drop a features);
          test_y := drop b (drop a labels) |}.
Proof.
  intros Hn n a b. unfold split.
  rewrite split_idx_floor by done. cbn [mbind result_bind].
  rewrite !slice_to_nonneg, !slice_from_nonneg by lia.
  rewrite Nat2Z.id. fold n a.
  rewrite test_idx_floor by (rewrite length_drop; lia).
  cbn [mbind result_bind].
  rewrite !slice_to_nonneg, !slice_from_nonneg by lia.
  rewrite Nat2Z.id, length_drop. fold n a b. done.
Qed.

(** C4. For a matrix of [n] rows (fewer than [2^50]) and [n] labels, the
    split never raises; the training cut is [floor(0.8 * n)] and the second
    cut is [floor(0.5 * (n - cut))] within what is left; the three parts are
    consecutive segments of the input, in the input's order, and put end to
    end they are the input again, for rows and for labels; their lengths sum
    to [n]; and the test set has as many rows as the validation set, or one
    more. *)
Theorem split_partition (features : list (list nat)) (labels : list nat) :
  length labels = length features →
  (Z.of_nat (length features) < 2 ^ 50)%Z →
  let n := length features in
  let a := 4 * n / 5 in
  let b := (n - a) / 2 in
  ∃ s, split features labels = Ok s
    ∧ split_idx features = Ok (Z.of_nat a)
    ∧ test_idx (drop a features) = Ok (Z.of_nat b)
    ∧ train_x s = take a features
    ∧ val_x s = take b (drop a features)
    ∧ test_x s = drop (a + b) features
    ∧ train_y s = take a labels
    ∧ val_y s = take b (drop a labels)
    ∧ test_y s = drop (a + b) labels
    ∧ train_x s ++ val_x s ++ test_x s = features
    ∧ train_y s ++ val_y s ++ test_y s = labels
    ∧ length (train_x s) = a
    ∧ length (val_x s) = b
    ∧ length (test_x s) = n - a - b
    ∧ length (train_y s) = a
    ∧ length (val_y s) = b
    ∧ length (test_y s) = n - a - b
    ∧ length (train_x s) + length (val_x s) + length (test_x s) = n
    ∧ length (val_x s) ≤ length (test_x s) ≤ length (val_x s) + 1.
Proof.
  intros Hlab Hn n a b.
  assert (Ha : a ≤ n) by (subst a; apply Nat.Div0.div_le_upper_bound; lia).
  assert (Hb : b + b ≤ n - a ∧ n - a ≤ b + b + 1).
  { subst b. pose proof (Nat.div_mod_eq (n - a) 2).
    pose proof (Nat.mod_upper_bound (n - a) 2). lia. }
  assert (Hcat : ∀ {A} (l : list A),
            take a l ++ take b (drop a l) ++ drop (a + b) l = l).
  { intros A l. rewrite <- drop_drop, take_drop. apply take_drop. }
  eexists. split; [by apply split_cuts|].
  cbn [train_x train_y val_x val_y test_x test_y]. fold n a b.
  rewrite !drop_drop, !length_take, !length_drop, Hlab.
  fold n.
  split_and!; try done; try lia.
  - by apply split_idx_floor.
  - rewrite test_idx_floor by (rewrite length_drop; lia).
    by rewrite length_drop.
Qed.

Lemma split_partition_witness :
  let features := [[0; 1]; [0; 2]; [0; 3]; [0; 4]; [0; 5]; [0; 6]; [0; 7]] in
  let labels := [1; 0; 1; 1; 0; 0; 1] in
  ∃ s, split features labels = Ok s
       ∧ train_x s ++ val_x s ++ test_x s = features
       ∧ length (train_x s) = 5 ∧ length (val_x s) = 1 ∧ length (test_x s) = 1.
Proof.
  intros features labels.
  destruct (split_partition features labels eq_refl eq_refl)
    as (s & Hs & _ & _ & _ & _ & _ & _ & _ & _ & Hcat & _ & Ha & Hb & Hc & _).
  exists s. split_and!; [exact Hs|exact Hcat|exact Ha|exact Hb|exact Hc].
Defined.

(** ** The notebook as a whole *)

(** A separator inside a string cuts it where it stands. *)
Lemma split_by_app_sep sep c a b :
  sep c = true →
  Py.split_by sep (a +:+ String c b) = Py.split_by sep a ++ Py.split_by sep b.
Proof.
  intros Hc. induction a as [|x a IH]; simpl.
  - by rewrite Hc.
  - rewrite IH. destruct (sep x); [done|].
    pose proof (split_by_nonempty sep a).
    by destruct (Py.split_by sep a).
Qed.

Lemma split_ws_app_space a b :
  Py.split_ws (a +:+ " " +:+ b) = Py.split_ws a ++ Py.split_ws b.
Proof.
  unfold Py.split_ws.
  change (" " +:+ b)%string with (String " "%char b).
  rewrite (split_by_app_sep Py.isspace " "%char a b) by reflexivity.
  apply filter_app.
Qed.

(** The flat token stream is the words of the reviews, review after
    review. *)
Lemma split_ws_join (reviews : list string) :
  Py.split_ws (Py.join " " reviews) = concat (map Py.split_ws reviews).
Proof.
  destruct reviews as [|s l]; [done|]. simpl.
  revert s. induction l as [|t l IH]; intros s; simpl.
  - by rewrite app_nil_r.
  - rewrite IH, split_ws_app_space. by rewrite <- app_assoc.
Qed.

(** Every word of every review has an id: the encoding loop of the notebook
    does not raise. *)
Lemma encode_reviews_own_vocabulary (reviews : string) :
  ∃ reviews_ints,
    encode_reviews (vocab_to_int (words_of reviews)) (reviews_of reviews)
    = Ok reviews_ints.
Proof.
  unfold words_of. rewrite split_ws_join.
  set (rs := reviews_of reviews). set (d := vocab_to_int _).
  assert (Hd : ∀ each w, each ∈ rs → w ∈ Py.split_ws each → is_Some (d !! w)).
  { intros each w Heach Hw. subst d. apply vocab_to_int_lookup_words.
    apply list_elem_of_In, in_concat. exists (Py.split_ws each).
    split; [by apply in_map, list_elem_of_In|by apply list_elem_of_In]. }
  clearbody d. induction rs as [|each rs IH].
  - by exists [].
  - destruct IH as [rsi Hrsi]; [intros; eapply Hd; [by right|done]|].
    assert (∃ ids, encode_review d each = Ok ids) as [ids Hids].
    { unfold encode_review.
      assert (Hw : ∀ w, w ∈ Py.split_ws each → is_Some (d !! w))
        by (intros; eapply Hd; [by left|done]).
      induction (Py.split_ws each) as [|w ws IHw]; [by exists []|].
      destruct IHw as [ids Hids]; [intros; apply Hw; by right|].
      destruct (Hw w ltac:(by left)) as [i Hi].
      exists (i :: ids). apply mapM_Ok. constructor.
      - unfold getitem. by rewrite Hi.
      - by apply mapM_Ok. }
    exists (ids :: rsi). apply mapM_Ok. constructor; [done|].
    by apply mapM_Ok.
Qed.

(** The notebook runs to its end on every corpus of fewer than [2^50]
    lines, whatever the labels file holds. *)
Lemma run_total (reviews labels : string) :
  (Z.of_nat (length (reviews_of reviews)) < 2 ^ 50)%Z →
  ∃ nb, run reviews labels = Ok nb.
Proof.
  intros Hn. unfold run.
  destruct (encode_reviews_own_vocabulary reviews) as [rsi Hrsi].
  rewrite Hrsi. cbn [mbind result_bind].
  rewrite features_of_framed. cbn [mbind result_bind].
  rewrite split_cuts; [by eexists|].
  rewrite length_map.
  pose proof (length_filter (λ each, length each ≠ 0) rsi) as Hf.
  apply mapM_Ok, Forall2_length in Hrsi.
  unfold filter_nonempty. lia.
Qed.

(** The notebook on a corpus of two reviews: the full stop is removed, four
    words get the ids 1 to 4 in their order of appearance (they all occur
    once), the two rows end with the ids of their review, and the labels are
    1 and 0. *)
Example run_two_reviews :
  let nl := String Py.LF EmptyString in
  ∃ nb, run ("good movie" +:+ nl +:+ "bad film.") ("positive" +:+ nl +:+ "negative")
        = Ok nb
    ∧ nb_reviews nb = ["good movie"; "bad film"]%string
    ∧ nb_words nb = ["good"; "movie"; "bad"; "film"]%string
    ∧ nb_reviews_ints nb = [[1; 2]; [3; 4]]
    ∧ nb_labels nb = [1; 0]
    ∧ nb_features nb = [replicate 198 0 ++ [1; 2]; replicate 198 0 ++ [3; 4]].
Proof.
  intros nl. eexists. split; [vm_compute; reflexivity|].
  split_and!; reflexivity.
Qed.

(** ** The text *)

Section TextFacts.

Implicit Types (s piece each w : string) (c : ascii) (sep : ascii → bool).

Lemma split_by_cons_inv sep c s piece :
  piece ∈ Py.split_by sep (String c s) →
  piece = EmptyString ∨ piece ∈ Py.split_by sep s
  ∨ ∃ cur, sep c = false ∧ piece = String c cur ∧ cur ∈ Py.split_by sep s.
Proof.
  simpl. destruct (sep c) eqn:Hc.
  - intros [->|H]%elem_of_cons; auto.
  - pose proof (split_by_nonempty sep s).
    destruct (Py.split_by sep s) as [|cur rest]; [done|].
    intros [->|H']%elem_of_cons.
    + right. right. exists cur. split_and!; [done..|by left].
    + right. left. by right.
Qed.

(** A piece holds no separator, and only characters of the string. *)
Lemma split_by_chars sep s piece c :
  piece ∈ Py.split_by sep s → c ∈ list_ascii_of_string piece →
  sep c = false ∧ c ∈ list_ascii_of_string s.
Proof.
  revert piece. induction s as [|a s IH]; intros piece Hp Hc.
  - apply list_elem_of_singleton in Hp as ->. by apply elem_of_nil in Hc.
  - apply split_by_cons_inv in Hp as [->|[Hp|(cur & Ha & -> & Hp)]].
    + by apply elem_of_nil in Hc.
    + destruct (IH _ Hp Hc). split; [done|]. simpl. by right.
    + simpl in Hc. apply elem_of_cons in Hc as [->|Hc].
      * split; [done|]. simpl. by left.
      * destruct (IH _ Hp Hc). split; [done|]. simpl. by right.
Qed.

Lemma remove_chars_chars (drop : ascii → bool) s c :
  c ∈ list_ascii_of_string (Py.remove_chars drop s) →
  drop c = false ∧ c ∈ list_ascii_of_string s.
Proof.
  induction s as [|a s IH]; simpl; [by intros ?%elem_of_nil|].
  destruct (drop a) eqn:Ha; simpl.
  - intros [? ?]%IH. split; [done|by right].
  - intros [->|[? ?]%IH]%elem_of_cons; (split; [done|]); [by left|by right].
Qed.

Lemma filter_concat {A} (P : A → Prop) `{!∀ x, Decision (P x)} (ls : list (list A)) :
  filter P (concat ls) = concat (map (filter P) ls).
Proof.
  induction ls as [|l ls IH]; [done|]. simpl. by rewrite filter_app, IH.
Qed.

(** Cutting at white space, line by line or in one go. *)
Lemma split_by_isspace_lines s :
  Py.split_by Py.isspace s
  = concat (map (Py.split_by Py.isspace) (Py.split Py.LF s)).
Proof.
  unfold Py.split. induction s as [|c s IH]; [done|].
  cbn [Py.split_by]. destruct (Ascii.eqb Py.LF c) eqn:Hc.
  - apply Ascii.eqb_eq in Hc as <-.
    change (Py.isspace Py.LF) with true. cbn iota. simpl. by rewrite <- IH.
  - pose proof (split_by_nonempty (Ascii.eqb Py.LF) s).
    destruct (Py.split_by (Ascii.eqb Py.LF) s) as [|cur rest]; [done|].
    cbn [map concat] in *. rewrite IH. cbn [Py.split_by].
    destruct (Py.isspace c); [done|].
    pose proof (split_by_nonempty Py.isspace cur).
    by destruct (Py.split_by Py.isspace cur).
Qed.

Lemma split_ws_lines s :
  Py.split_ws s = concat (map Py.split_ws (Py.split Py.LF s)).
Proof.
  unfold Py.split_ws at 1. rewrite split_by_isspace_lines, filter_concat.
  by rewrite map_map.
Qed.

Lemma elem_of_concat_map {A B} (f : A → list B) (l : list A) (x : B) :
  x ∈ concat (map f l) ↔ ∃ a, a ∈ l ∧ x ∈ f a.
Proof.
  induction l as [|a l IH]; simpl.
  - split; [by intros ?%elem_of_nil|by intros (a & ?%elem_of_nil & _)].
  - rewrite elem_of_app, IH. split.
    + intros [H|(a' & ? & ?)]; [exists a; split; [by left|done]|].
      exists a'. split; [by right|done].
    + intros (a' & [->|H]%elem_of_cons & Hx); [by left|].
      right. by exists a'.
Qed.

(** A string has one line more than it has line feeds. *)
Lemma split_by_length sep s :
  length (Py.split_by sep s)
  = S (length (filter (λ c, sep c = true) (list_ascii_of_string s))).
Proof.
  induction s as [|c s IH]; [done|]. simpl. rewrite filter_cons.
  destruct (sep c) eqn:Hc.
  - rewrite decide_True by done. simpl. by rewrite IH.
  - rewrite decide_False by done. rewrite <- IH.
    pose proof (split_by_nonempty sep s).
    by destruct (Py.split_by sep s).
Qed.

Lemma remove_chars_keeps (drop : ascii → bool) sep s :
  (∀ c, sep c = true → drop c = false) →
  filter (λ c, sep c = true) (list_ascii_of_string (Py.remove_chars drop s))
  = filter (λ c, sep c = true) (list_ascii_of_string s).
Proof.
  intros Hsep. induction s as [|c s IH]; [done|]. simpl.
  destruct (drop c) eqn:Hc; simpl; rewrite !filter_cons, IH.
  - rewrite decide_False; [done|]. intros ?%Hsep. congruence.
  - done.
Qed.

Lemma remove_chars_app (drop : ascii → bool) a b :
  Py.remove_chars drop (a +:+ b)
  = Py.remove_chars drop a +:+ Py.remove_chars drop b.
Proof.
  induction a as [|c a IH]; [done|]. simpl.
  destruct (drop c); simpl; by rewrite IH.
Qed.

End TextFacts.

(** X1. Every token of the flat word list is a non-empty string made of
    characters of the raw text that are neither white space nor
    punctuation. *)
Theorem words_clean (reviews : string) (w : string) :
  w ∈ words_of reviews →
  w ≠ EmptyString
  ∧ ∀ c, c ∈ list_ascii_of_string w →
      Py.isspace c = false ∧ Py.punctuation c = false
      ∧ c ∈ list_ascii_of_string reviews.
Proof.
  unfold words_of. rewrite split_ws_join.
  intros (each & Heach & Hw)%elem_of_concat_map.
  unfold Py.split_ws in Hw. apply list_elem_of_filter in Hw as [Hne Hw].
  split; [done|]. intros c Hc.
  destruct (split_by_chars _ _ _ _ Hw Hc) as [Hsp Hc'].
  destruct (split_by_chars _ _ _ _ Heach Hc') as [_ Hc''].
  destruct (remove_chars_chars _ _ _ Hc'') as [Hp Hraw].
  done.
Qed.

Lemma words_clean_witness :
  "film"%string ∈ words_of "A film." ∧ "film"%string ≠ EmptyString.
Proof.
  assert (H : "film"%string ∈ words_of "A film.") by (vm_compute; right; left).
  split; [exact H|]. exact (proj1 (words_clean "A film." "film" H)).
Defined.

(** X2. The corpus has one review per line: one more than the raw text has
    line feeds, punctuation or not; the empty text is one empty review, and
    a line feed at the very end of the text adds an empty last review. *)
Theorem reviews_of_lines :
  (∀ reviews,
     length (reviews_of reviews)
     = S (length (filter (λ c, c = Py.LF) (list_ascii_of_string reviews))))
  ∧ reviews_of EmptyString = [EmptyString]
  ∧ (∀ reviews,
       reviews_of (reviews +:+ String Py.LF EmptyString)
       = reviews_of reviews ++ [EmptyString]).
Proof.
  split_and!; [|done|].
  - intros reviews. unfold reviews_of, Py.split, all_text.
    rewrite split_by_length.
    rewrite (remove_chars_keeps Py.punctuation (Ascii.eqb Py.LF)).
    + f_equal. f_equal. apply list_filter_iff. intros c.
      rewrite Ascii.eqb_eq. naive_solver.
    + intros c <-%Ascii.eqb_eq. reflexivity.
  - intros reviews. unfold reviews_of, Py.split, all_text.
    rewrite remove_chars_app.
    change (Py.remove_chars Py.punctuation (String Py.LF EmptyString))
      with (String Py.LF EmptyString).
    apply split_by_trailing, Ascii.eqb_refl.
Qed.

(** X3. The flat word list is the words of the reviews, review after
    review, in order; splitting the text into lines and joining them with
    spaces changes nothing for it: it is also the cleaned text cut at white
    space. *)
Theorem words_of_reviews (reviews : string) :
  words_of reviews = concat (map Py.split_ws (reviews_of reviews))
  ∧ words_of reviews = Py.split_ws (all_text reviews).
Proof.
  unfold words_of, reviews_of. rewrite split_ws_join. split; [done|].
  by rewrite <- split_ws_lines.
Qed.

(** ** More on the vocabulary and the encoding *)

Section EncodingFacts.

Implicit Types (w : string) (l words : list string) (d : gmap string nat).

Lemma vocab_to_int_size words :
  size (vocab_to_int words) = length (vocab words).
Proof.
  rewrite <- size_dom.
  rewrite <- (size_list_to_set (C := gset string) (vocab words))
    by apply vocab_NoDup.
  f_equal. apply set_eq. intros w.
  rewrite elem_of_dom, elem_of_list_to_set, list_elem_of_lookup. split.
  - intros [i (j & Hj & _)%vocab_to_int_lookup]. by exists j.
  - intros [j Hj]. exists (j + 1). apply vocab_to_int_lookup. by exists j.
Qed.

Lemma vocab_to_int_range words w i :
  vocab_to_int words !! w = Some i → 1 ≤ i ≤ size (vocab_to_int words).
Proof.
  rewrite vocab_to_int_size. intros (j & Hj & ->)%vocab_to_int_lookup.
  apply lookup_lt_Some in Hj. lia.
Qed.

Lemma vocab_to_int_inj words w1 w2 i :
  vocab_to_int words !! w1 = Some i → vocab_to_int words !! w2 = Some i →
  w1 = w2.
Proof.
  intros (j1 & Hj1 & ->)%vocab_to_int_lookup (j2 & Hj2 & Heq)%vocab_to_int_lookup.
  assert (j1 = j2) as -> by lia. congruence.
Qed.

Lemma getitem_Ok d w i : getitem d w = Ok i ↔ d !! w = Some i.
Proof.
  unfold getitem. destruct (d !! w); split; intros H; by inversion H.
Qed.

End EncodingFacts.

(** X4. On the vocabulary built from its own text the encoding loop never
    raises [KeyError]: it returns one encoded review per line, each as long
    as the line has words, and every id lies between 1 and the size of the
    vocabulary. *)
Theorem encode_own_vocabulary (reviews : string) :
  let d := vocab_to_int (words_of reviews) in
  ∃ reviews_ints,
    encode_reviews d (reviews_of reviews) = Ok reviews_ints
    ∧ length reviews_ints = length (reviews_of reviews)
    ∧ Forall2 (λ each ids, length ids = length (Py.split_ws each))
        (reviews_of reviews) reviews_ints
    ∧ Forall (Forall (λ i, 1 ≤ i ≤ size d)) reviews_ints.
Proof.
  intros d. destruct (encode_reviews_own_vocabulary reviews) as [rsi Hrsi].
  fold d in Hrsi. exists rsi. split; [done|].
  apply mapM_Ok in Hrsi. split_and!.
  - symmetry. by eapply Forall2_length.
  - eapply Forall2_impl; [exact Hrsi|]. simpl. intros each ids Hids.
    apply mapM_Ok, Forall2_length in Hids. done.
  - apply Forall_forall. intros ids Hin.
    apply list_elem_of_lookup in Hin as [k Hk].
    destruct (Forall2_lookup_r _ _ _ _ _ Hrsi Hk) as (each & _ & Hids).
    apply mapM_Ok in Hids. apply Forall_forall. intros i Hi.
    apply list_elem_of_lookup in Hi as [j Hj].
    destruct (Forall2_lookup_r _ _ _ _ _ Hids Hj) as (w & _ & Hw).
    apply getitem_Ok in Hw. by eapply vocab_to_int_range.
Qed.

(** X5. The encoding loses nothing: two reviews that the vocabulary
    encodes to the same list of ids have the same list of words. *)
Theorem encode_review_injective (words : list string) (a b : string)
    (ids : list nat) :
  encode_review (vocab_to_int words) a = Ok ids →
  encode_review (vocab_to_int words) b = Ok ids →
  Py.split_ws a = Py.split_ws b.
Proof.
  unfold encode_review. intros Ha%mapM_Ok Hb%mapM_Ok.
  revert Hb. generalize (Py.split_ws b).
  induction Ha as [|w i ws ids Hw _ IH]; intros wb Hb.
  - by inversion Hb.
  - inversion Hb as [|w' ? ws' ? Hw' Hb']; subst.
    apply getitem_Ok in Hw, Hw'. f_equal; [|by apply IH].
    by eapply vocab_to_int_inj.
Qed.

Lemma encode_review_injective_witness :
  Py.split_ws "a  film" = Py.split_ws " a film ".
Proof.
  apply (encode_review_injective ["a"; "film"; "a"]%string
           "a  film" " a film " [1; 2]); vm_compute; reflexivity.
Defined.

(** ** Ties in the vocabulary *)

Section TieFacts.

Implicit Types (w a b x : string) (l words : list string)
  (counts acc : list (string * nat)).

(** The counter only ever adds keys at the end. *)
Lemma Counter_loop_prefix words : ∀ acc,
  ∃ extra,
    (fold_left (λ counts w, counter_incr w counts) words acc).*1
    = acc.*1 ++ extra.
Proof.
  induction words as [|w words IH]; intros acc; simpl.
  - exists []. by rewrite app_nil_r.
  - destruct (IH (counter_incr w acc)) as [extra ->].
    rewrite <- counter_incr_keys. rewrite <- app_assoc. by eexists.
Qed.

Lemma Counter_app_prefix (ws1 ws2 : list string) :
  ∃ extra, (Counter (ws1 ++ ws2)).*1 = (Counter ws1).*1 ++ extra.
Proof.
  unfold Counter. rewrite fold_left_app. apply Counter_loop_prefix.
Qed.

(** A key that is met before another one comes first in the counter. *)
Lemma Counter_first_seen words a b k :
  words !! k = Some a → b ∉ take k words → a ≠ b → b ∈ words →
  ∃ p q, p < q ∧ (Counter words).*1 !! p = Some a
         ∧ (Counter words).*1 !! q = Some b.
Proof.
  intros Hk Hb Hab Hin.
  assert (Hsplit : words = take (S k) words ++ drop (S k) words)
    by (by rewrite take_drop).
  destruct (Counter_app_prefix (take (S k) words) (drop (S k) words))
    as [extra Hpre].
  rewrite <- Hsplit in Hpre.
  assert (Ha : a ∈ (Counter (take (S k) words)).*1).
  { apply Counter_elem. apply list_elem_of_lookup. exists k.
    rewrite lookup_take_lt by lia. done. }
  assert (Hb' : b ∉ (Counter (take (S k) words)).*1).
  { rewrite Counter_elem. erewrite take_S_r by done.
    rewrite elem_of_app, list_elem_of_singleton. naive_solver. }
  assert (Hbe : b ∈ extra).
  { apply Counter_elem in Hin. rewrite Hpre, elem_of_app in Hin.
    by destruct Hin. }
  apply list_elem_of_lookup in Ha as [p Hp].
  apply list_elem_of_lookup in Hbe as [q Hq].
  exists p, (length (Counter (take (S k) words)).*1 + q).
  pose proof (lookup_lt_Some _ _ _ Hp). rewrite Hpre.
  split_and!; [lia| |].
  - by rewrite lookup_app_l.
  - rewrite lookup_app_r by lia. rewrite <- Hq. f_equal. lia.
Qed.

Variable key : string → nat.

(** Where the insertion puts the new element. *)
Lemma insert_desc_split x l :
  ∃ l1 l2, l = l1 ++ l2 ∧ insert_desc key x l = l1 ++ x :: l2
           ∧ Forall (λ y, key x < key y) l1.
Proof.
  induction l as [|y l IH]; simpl.
  - by exists [], [].
  - destruct (key y <=? key x) eqn:Hc.
    + by exists [], (y :: l).
    + apply Nat.leb_gt in Hc.
      destruct IH as (l1 & l2 & -> & -> & Hall).
      exists (y :: l1), l2. split_and!; [done..|by constructor].
Qed.

(** The sort is stable: of two elements, the one that comes first in the
    input comes first in the output unless its key is strictly smaller. *)
Lemma sorted_reverse_stable l : ∀ a b p q,
  p < q → l !! p = Some a → l !! q = Some b → key b ≤ key a →
  ∃ p' q', p' < q' ∧ sorted_reverse key l !! p' = Some a
           ∧ sorted_reverse key l !! q' = Some b.
Proof.
  induction l as [|x l IH]; intros a b p q Hpq Hp Hq Hkey; [done|].
  simpl.
  destruct (insert_desc_split x (sorted_reverse key l))
    as (l1 & l2 & Hs & -> & Hall).
  assert (Hshift : ∀ j y, (l1 ++ l2) !! j = Some y →
            ∃ j', (l1 ++ x :: l2) !! j' = Some y
                  ∧ (j < length l1 → j' = j)
                  ∧ (length l1 ≤ j → j' = S j)).
  { intros j y Hj. destruct (decide (j < length l1)).
    - exists j. rewrite lookup_app_l in * by done. split_and!; [done|done|lia].
    - exists (S j). rewrite lookup_app_r in * by lia.
      replace (S j - length l1) with (S (j - length l1)) by lia.
      split_and!; [done|lia|done]. }
  destruct q as [|q]; [lia|]. simpl in Hq.
  destruct p as [|p]; simpl in Hp.
  - injection Hp as ->.
    assert (Hb : b ∈ l1 ++ l2).
    { rewrite <- Hs, sorted_reverse_perm. by eapply list_elem_of_lookup_2. }
    apply list_elem_of_lookup in Hb as [j Hj].
    assert (length l1 ≤ j).
    { destruct (decide (length l1 ≤ j)); [done|].
      rewrite lookup_app_l in Hj by lia.
      rewrite Forall_forall in Hall.
      pose proof (Hall b ltac:(by eapply list_elem_of_lookup_2)). lia. }
    destruct (Hshift j b Hj) as (j' & Hj' & _ & Hge).
    exists (length l1), j'. split_and!; [lia| |done].
    by rewrite list_lookup_middle.
  - destruct (IH a b p q ltac:(lia) Hp Hq Hkey) as (p' & q' & Hlt & Hp' & Hq').
    rewrite Hs in Hp', Hq'.
    destruct (Hshift p' a Hp') as (p'' & Hp'' & Hpl & Hpg).
    destruct (Hshift q' b Hq') as (q'' & Hq'' & Hql & Hqg).
    exists p'', q''. split_and!; [|done..].
    destruct (decide (p' < length l1)), (decide (q' < length l1)); lia.
Qed.

End TieFacts.

(** X6. Ties are settled by the order of first appearance: of two tokens
    that occur equally often, the one that is met first in the flat token
    stream has the smaller id. *)
Theorem vocab_to_int_ties (words : list string) (t1 t2 : string)
    (i1 i2 k : nat) :
  vocab_to_int words !! t1 = Some i1 →
  vocab_to_int words !! t2 = Some i2 →
  occurrences t1 words = occurrences t2 words →
  words !! k = Some t1 → t2 ∉ take k words → t1 ≠ t2 →
  i1 < i2.
Proof.
  intros H1 H2 Hocc Hk Hnot Hne.
  assert (Hin2 : t2 ∈ words).
  { apply vocab_to_int_lookup in H2 as (j & Hj & _).
    apply vocab_elem. by eapply list_elem_of_lookup_2. }
  destruct (Counter_first_seen words t1 t2 k Hk Hnot Hne Hin2)
    as (p & q & Hpq & Hp & Hq).
  destruct (sorted_reverse_stable (counts_get (Counter words))
              (Counter words).*1 t1 t2 p q Hpq Hp Hq)
    as (p' & q' & Hlt & Hp' & Hq').
  { rewrite !Counter_get. lia. }
  apply vocab_to_int_lookup in H1 as (j1 & Hj1 & ->).
  apply vocab_to_int_lookup in H2 as (j2 & Hj2 & ->).
  pose proof (vocab_NoDup words) as Hnd.
  assert (j1 = p') as -> by (by eapply NoDup_lookup).
  assert (j2 = q') as -> by (by eapply NoDup_lookup).
  lia.
Qed.

Lemma vocab_to_int_ties_witness :
  let words := ["bad"; "good"; "bad"; "good"; "film"]%string in
  vocab_to_int words !! "bad"%string = Some 1
  ∧ vocab_to_int words !! "good"%string = Some 2
  ∧ 1 < 2.
Proof.
  intros words.
  assert (H1 : vocab_to_int words !! "bad"%string = Some 1)
    by (vm_compute; reflexivity).
  assert (H2 : vocab_to_int words !! "good"%string = Some 2)
    by (vm_compute; reflexivity).
  split_and!; [exact H1|exact H2|].
  refine (vocab_to_int_ties words "bad" "good" 1 2 0 H1 H2 _ _ _ _).
  - vm_compute. reflexivity.
  - reflexivity.
  - simpl. apply not_elem_of_nil.
  - discriminate.
Defined.

(** ** More on the feature matrix *)

Section FeatureFacts.

Implicit Types (each row : list nat) (d : gmap string nat).

Lemma encode_reviews_range (words : list string) (rs : list string)
    (reviews_ints : list (list nat)) :
  encode_reviews (vocab_to_int words) rs = Ok reviews_ints →
  Forall (Forall (λ i, 1 ≤ i ≤ size (vocab_to_int words))) reviews_ints.
Proof.
  intros Hrsi%mapM_Ok. apply Forall_forall. intros ids Hin.
  apply list_elem_of_lookup in Hin as [k Hk].
  destruct (Forall2_lookup_r _ _ _ _ _ Hrsi Hk) as (each & _ & Hids).
  apply mapM_Ok in Hids. apply Forall_forall. intros i Hi.
  apply list_elem_of_lookup in Hi as [j Hj].
  destruct (Forall2_lookup_r _ _ _ _ _ Hids Hj) as (w & _ & Hw).
  apply getitem_Ok in Hw. by eapply vocab_to_int_range.
Qed.

Lemma framed_short each :
  length each ≤ 200 → framed each = replicate (200 - length each) 0 ++ each.
Proof.
  intros Hlen. unfold framed. destruct (200 <=? length each) eqn:Hc; [|done].
  apply Nat.leb_le in Hc. assert (length each = 200) as Heq by lia.
  rewrite Heq, take_ge by lia. done.
Qed.

Lemma framed_elem each v : v ∈ framed each → v = 0 ∨ v ∈ each.
Proof.
  unfold framed. destruct (200 <=? length each).
  - intros ?%subseteq_take. by right.
  - intros [?%elem_of_replicate_inv|?]%elem_of_app; auto.
Qed.

Lemma framed_last each :
  each ≠ [] → ∃ v, last (framed each) = Some v ∧ v ∈ each.
Proof.
  intros Hne. rewrite last_lookup, framed_length. simpl.
  unfold framed. destruct (200 <=? length each) eqn:Hc.
  - apply Nat.leb_le in Hc. rewrite lookup_take_lt by lia.
    destruct (lookup_lt_is_Some_2 each 199 ltac:(lia)) as [v Hv].
    exists v. split; [done|]. by eapply list_elem_of_lookup_2.
  - apply Nat.leb_gt in Hc.
    assert (0 < length each) by (destruct each; [done|simpl; lia]).
    rewrite lookup_app_r by (rewrite length_replicate; lia).
    rewrite length_replicate.
    destruct (lookup_lt_is_Some_2 each (199 - (200 - length each))
                ltac:(lia)) as [v Hv].
    exists v. split; [done|]. by eapply list_elem_of_lookup_2.
Qed.

Lemma framed_inj (a b : list nat) :
  length a ≤ 200 → length b ≤ 200 →
  Forall (λ i, i ≠ 0) a → Forall (λ i, i ≠ 0) b →
  framed a = framed b → a = b.
Proof.
  intros Ha Hb Hna Hnb. rewrite !framed_short by done. intros Heq.
  assert (Hlen : length a = length b).
  { destruct (Nat.lt_trichotomy (length a) (length b)) as [Hlt|[?|Hlt]];
      [|done|]; exfalso.
    - assert (H : (replicate (200 - length b) 0 ++ b) !! (200 - length b)
                  = Some 0).
      { rewrite <- Heq. rewrite lookup_app_l by (rewrite length_replicate; lia).
        apply lookup_replicate_2. lia. }
      rewrite lookup_app_r in H by (rewrite length_replicate; lia).
      rewrite length_replicate, Nat.sub_diag in H.
      rewrite Forall_forall in Hnb.
      by apply list_elem_of_lookup_2, Hnb in H.
    - assert (H : (replicate (200 - length a) 0 ++ a) !! (200 - length a)
                  = Some 0).
      { rewrite Heq. rewrite lookup_app_l by (rewrite length_replicate; lia).
        apply lookup_replicate_2. lia. }
      rewrite lookup_app_r in H by (rewrite length_replicate; lia).
      rewrite length_replicate, Nat.sub_diag in H.
      rewrite Forall_forall in Hna.
      by apply list_elem_of_lookup_2, Hna in H. }
  rewrite Hlen in Heq. by apply app_inv_head in Heq.
Qed.

Lemma framed_take each : framed (take 200 each) = framed each.
Proof.
  unfold framed. rewrite length_take.
  destruct (200 <=? length each) eqn:Hc.
  - apply Nat.leb_le in Hc. rewrite Nat.min_l by done.
    rewrite Nat.leb_refl, take_take. by rewrite Nat.min_id.
  - apply Nat.leb_gt in Hc. rewrite Nat.min_r by lia.
    rewrite (proj2 (Nat.leb_gt 200 (length each))) by lia.
    by rewrite take_ge by lia.
Qed.

(** What [run] leaves in the notebook. *)
Lemma run_inv (reviews labels : string) (nb : notebook) :
  run reviews labels = Ok nb →
  ∃ rsi,
    encode_reviews (vocab_to_int (words_of reviews)) (reviews_of reviews) = Ok rsi
    ∧ nb_vocab_to_int nb = vocab_to_int (words_of reviews)
    ∧ nb_words nb = words_of reviews
    ∧ nb_reviews_ints nb = filter_nonempty rsi
    ∧ nb_labels nb = labels_of labels
    ∧ nb_features nb = map framed (filter_nonempty rsi)
    ∧ split (nb_features nb) (nb_labels nb) = Ok (nb_sets nb).
Proof.
  unfold run. intros Hrun.
  destruct (encode_reviews _ _) as [rsi|] eqn:Henc; [|done].
  cbn [mbind result_bind] in Hrun. rewrite features_of_framed in Hrun.
  cbn [mbind result_bind] in Hrun.
  destruct (split _ _) as [sets|] eqn:Hsp; [|done].
  cbn [mbind result_bind] in Hrun. injection Hrun as <-.
  exists rsi. by split_and!.
Qed.

End FeatureFacts.

(** X7. Every entry of the feature matrix the notebook builds is below
    [n_words], the number of rows of the embedding table, which is the
    number of distinct tokens plus one; and every row has [seq_len]
    entries. *)
Theorem features_in_range (reviews labels : string) (nb : notebook) :
  run reviews labels = Ok nb →
  n_words (nb_vocab_to_int nb) = S (size (list_to_set (nb_words nb) : gset string))
  ∧ Forall (λ row, length row = seq_len
                   ∧ Forall (λ v, v < n_words (nb_vocab_to_int nb)) row)
      (nb_features nb).
Proof.
  intros (rsi & Henc & -> & -> & _ & _ & -> & _)%run_inv.
  unfold n_words. split.
  - rewrite vocab_to_int_size, vocab_length. lia.
  - apply encode_reviews_range in Henc. rewrite Forall_forall in Henc.
    apply Forall_forall. intros row (each & -> & Hin)%list_elem_of_fmap.
    split; [apply framed_length|].
    apply list_elem_of_filter in Hin as [_ Hin].
    specialize (Henc each Hin). rewrite Forall_forall in Henc.
    apply Forall_forall. intros v [->|Hv]%framed_elem; [lia|].
    specialize (Henc v Hv). lia.
Qed.

(** X8. After the filter no encoded review is empty, the matrix has one
    row per encoded review, and no row is padding only: the last entry of
    every row is a word id, at least 1. *)
Theorem features_no_padding_row (reviews labels : string) (nb : notebook) :
  run reviews labels = Ok nb →
  length (nb_features nb) = length (nb_reviews_ints nb)
  ∧ Forall (λ each, each ≠ []) (nb_reviews_ints nb)
  ∧ Forall (λ row, ∃ v, last row = Some v ∧ 1 ≤ v) (nb_features nb).
Proof.
  intros (rsi & Henc & _ & _ & -> & _ & -> & _)%run_inv.
  apply encode_reviews_range in Henc. rewrite Forall_forall in Henc.
  split_and!.
  - by rewrite length_map.
  - apply Forall_forall. intros each [Hne _]%list_elem_of_filter.
    by destruct each.
  - apply Forall_forall. intros row (each & -> & Hin)%list_elem_of_fmap.
    apply list_elem_of_filter in Hin as [Hne Hin].
    destruct (framed_last each) as (v & Hv & Hvin); [by destruct each|].
    exists v. split; [done|].
    specialize (Henc each Hin). rewrite Forall_forall in Henc.
    by apply Henc.
Qed.

(** X9. Framing loses nothing on reviews of at most 200 ids, none of them
    0: two such lists of reviews with the same matrix are equal. Of a longer
    review only the first 200 ids count. *)
Theorem features_of_injective :
  (∀ (a b : list (list nat)) (features : list (list nat)),
     Forall (λ each, length each ≤ 200 ∧ Forall (λ i, i ≠ 0) each) a →
     Forall (λ each, length each ≤ 200 ∧ Forall (λ i, i ≠ 0) each) b →
     features_of a = Ok features → features_of b = Ok features → a = b)
  ∧ (∀ reviews_ints,
       features_of (map (take 200) reviews_ints) = features_of reviews_ints).
Proof.
  split.
  - intros a b features Ha Hb. rewrite !features_of_framed.
    intros [= <-] [= Heq]. revert b Hb Heq.
    induction Ha as [|x a [Hx Hnx] Ha IH]; intros b Hb Heq.
    + by destruct b.
    + destruct b as [|y b]; [done|]. simpl in Heq. injection Heq as Hxy Heq.
      apply Forall_cons in Hb as [[Hy Hny] Hb].
      f_equal; [|by apply IH]. symmetry. by apply framed_inj.
  - intros reviews_ints. rewrite !features_of_framed. f_equal.
    rewrite map_map. apply map_ext. intros each. apply framed_take.
Qed.

Lemma features_of_injective_witness : [[3; 1]; [2]] = [[3; 1]; [2]].
Proof.
  apply (proj1 features_of_injective [[3; 1]; [2]] [[3; 1]; [2]]
           (map framed [[3; 1]; [2]])).
  - repeat constructor; simpl; lia.
  - repeat constructor; simpl; lia.
  - apply features_of_framed.
  - apply features_of_framed.
Defined.

(** ** The review lengths *)

Section LengthFacts.

Implicit Types (keys : list nat) (m : gmap nat nat) (k : nat).

Lemma counter_of_loop keys : ∀ m,
  let c := fold_left (λ m k, <[k := default 0 (m !! k) + 1]> m) keys m in
  (∀ k, default 0 (c !! k)
        = default 0 (m !! k) + length (filter (λ x, x = k) keys))
  ∧ dom c = dom m ∪ list_to_set keys.
Proof.
  induction keys as [|x keys IH]; intros m; simpl.
  - split; [intros k; lia|set_solver].
  - destruct (IH (<[x := default 0 (m !! x) + 1]> m)) as [Hget Hdom].
    split.
    + intros k. rewrite Hget, filter_cons.
      destruct (decide (x = k)) as [->|Hne].
      * rewrite lookup_insert_eq. simpl. lia.
      * rewrite lookup_insert_ne by done. lia.
    + rewrite Hdom, dom_insert_L. set_solver.
Qed.

Lemma counter_of_get keys k :
  counter_getitem (counter_of keys) k = length (filter (λ x, x = k) keys).
Proof.
  unfold counter_getitem, counter_of.
  destruct (counter_of_loop keys ∅) as [Hget _].
  rewrite Hget, lookup_empty. done.
Qed.

Lemma counter_of_dom keys : dom (counter_of keys) = list_to_set keys.
Proof.
  unfold counter_of. destruct (counter_of_loop keys ∅) as [_ Hdom].
  rewrite Hdom. set_solver.
Qed.

Lemma max_list_same (l1 l2 : list nat) :
  (∀ x, x ∈ l1 ↔ x ∈ l2) → max_list l1 = max_list l2.
Proof.
  intros Hiff. destruct l1 as [|a l1], l2 as [|b l2]; [done| | |].
  - exfalso. eapply elem_of_nil, Hiff. by left.
  - exfalso. eapply elem_of_nil, Hiff. by left.
  - apply Nat.le_antisymm.
    + apply max_list_elem_of_le, Hiff, max_list_elem_of. done.
    + apply max_list_elem_of_le, Hiff, max_list_elem_of. done.
Qed.

Lemma counter_max_keys keys :
  counter_max (counter_of keys)
  = match keys with [] => Raise ValueError | _ => Ok (max_list keys) end.
Proof.
  unfold counter_max. rewrite counter_of_dom.
  assert (Hiff : ∀ x, x ∈ elements (list_to_set keys : gset nat) ↔ x ∈ keys).
  { intros x. by rewrite elem_of_elements, elem_of_list_to_set. }
  destruct (elements (list_to_set keys : gset nat)) as [|a ks] eqn:Hel.
  - destruct keys as [|k keys]; [done|].
    exfalso. eapply elem_of_nil, Hiff. by left.
  - destruct keys as [|k keys].
    + exfalso. eapply elem_of_nil, Hiff. by left.
    + f_equal. by apply max_list_same.
Qed.

End LengthFacts.

(** X10. What the length report prints: [review_lens[0]] is the number of
    reviews the zero-length filter removes; [max(review_lens)] is the length
    of a longest review, which no review exceeds, and it raises [ValueError]
    only when there is no review at all. *)
Theorem review_lens_report (reviews_ints : list (list nat)) :
  counter_getitem (review_lens reviews_ints) 0
  = length reviews_ints - length (filter_nonempty reviews_ints)
  ∧ (reviews_ints = [] → counter_max (review_lens reviews_ints) = Raise ValueError)
  ∧ (reviews_ints ≠ [] →
     ∃ longest,
       counter_max (review_lens reviews_ints) = Ok longest
       ∧ Forall (λ each, length each ≤ longest) reviews_ints
       ∧ ∃ each, each ∈ reviews_ints ∧ length each = longest).
Proof.
  unfold review_lens. rewrite counter_of_get, counter_max_keys. split_and!.
  - unfold filter_nonempty.
    induction reviews_ints as [|each l IH]; [done|].
    cbn [map]. rewrite !filter_cons.
    pose proof (length_filter (λ each, length each ≠ 0) l).
    destruct (decide (length each = 0)), (decide (length each ≠ 0));
      simpl in *; try done; lia.
  - by intros ->.
  - intros Hne. destruct reviews_ints as [|r l]; [done|].
    eexists. split; [done|]. split.
    + apply Forall_forall. intros each Hin.
      apply max_list_elem_of_le. apply list_elem_of_fmap. by exists each.
    + pose proof (max_list_elem_of (map length (r :: l)) ltac:(done)) as Hm.
      apply list_elem_of_fmap in Hm as (each & Heq & Hin). by exists each.
Qed.

Lemma review_lens_report_witness :
  ∃ longest, counter_max (review_lens [[4; 2]; []; [7]]) = Ok longest.
Proof.
  destruct (proj2 (proj2 (review_lens_report [[4; 2]; []; [7]])))
    as (longest & H & _); [discriminate|].
  by exists longest.
Defined.

(** ** More on the split *)

(** X11. Small inputs (fewer than [2^50] rows throughout): the training
    set is empty exactly when there are at most 1 row, the validation set
    exactly when there are at most 5, and the test set only when there is no
    row. *)
Theorem split_small_inputs (features : list (list nat)) (labels : list nat) :
  (Z.of_nat (length features) < 2 ^ 50)%Z →
  ∃ s, split features labels = Ok s
    ∧ (train_x s = [] ↔ length features ≤ 1)
    ∧ (val_x s = [] ↔ length features ≤ 5)
    ∧ (test_x s = [] ↔ length features = 0).
Proof.
  intros Hn. eexists. split; [by apply split_cuts|].
  cbn [train_x val_x test_x].
  set (n := length features). set (a := 4 * n / 5). set (b := (n - a) / 2).
  pose proof (Nat.div_mod_eq (4 * n) 5) as Ha.
  pose proof (Nat.mod_upper_bound (4 * n) 5 ltac:(lia)) as Ha'.
  pose proof (Nat.div_mod_eq (n - a) 2) as Hb.
  pose proof (Nat.mod_upper_bound (n - a) 2 ltac:(lia)) as Hb'.
  fold a in Ha. fold b in Hb.
  rewrite <- !length_zero_iff_nil, !length_take, !length_drop. fold n.
  split_and!; lia.
Qed.

Lemma split_small_inputs_witness :
  ∃ s, split [[1]; [2]; [3]; [4]; [5]] [1; 0; 1; 0; 1] = Ok s ∧ val_x s = [].
Proof.
  destruct (split_small_inputs [[1]; [2]; [3]; [4]; [5]] [1; 0; 1; 0; 1] eq_refl)
    as (s & Hs & _ & Hval & _).
  exists s. split; [exact Hs|]. apply Hval. simpl. lia.
Defined.

(** X12. The split does not ask the labels to be as many as the rows, and
    does not raise when they are not: the three label parts always put the
    label vector together again; with at least as many labels as rows the
    training and validation labels are as many as their rows and every
    surplus label ends in the test labels; with fewer labels the test labels
    are fewer than the test rows. *)
Theorem split_any_labels (features : list (list nat)) (labels : list nat) :
  (Z.of_nat (length features) < 2 ^ 50)%Z →
  ∃ s, split features labels = Ok s
    ∧ train_y s ++ val_y s ++ test_y s = labels
    ∧ (length features ≤ length labels →
       length (train_y s) = length (train_x s)
       ∧ length (val_y s) = length (val_x s)
       ∧ length (test_y s)
         = length (test_x s) + (length labels - length features))
    ∧ (length labels < length features →
       length (test_y s) < length (test_x s)).
Proof.
  intros Hn. eexists. split; [by apply split_cuts|].
  cbn [train_x train_y val_x val_y test_x test_y].
  set (n := length features). set (a := 4 * n / 5). set (b := (n - a) / 2).
  pose proof (Nat.div_mod_eq (4 * n) 5) as Ha.
  pose proof (Nat.mod_upper_bound (4 * n) 5 ltac:(lia)) as Ha'.
  pose proof (Nat.div_mod_eq (n - a) 2) as Hb.
  pose proof (Nat.mod_upper_bound (n - a) 2 ltac:(lia)) as Hb'.
  fold a in Ha. fold b in Hb.
  split_and!.
  - by rewrite !take_drop.
  - intros Hle. rewrite !length_take, !length_drop. fold n. lia.
  - intros Hlt. rewrite !length_drop. fold n. lia.
Qed.

Lemma split_any_labels_witness :
  ∃ s, split [[1]; [2]] [1; 0; 0] = Ok s ∧ length (test_y s) = length (test_x s) + 1.
Proof.
  destruct (split_any_labels [[1]; [2]] [1; 0; 0] eq_refl)
    as (s & Hs & _ & Hlong & _).
  exists s. split; [exact Hs|].
  exact (proj2 (proj2 (Hlong ltac:(simpl; lia)))).
Defined.

(** ** More on the batches *)

Section MoreBatchFacts.

Context {X Y : Type}.
Implicit Types (x : list X) (y : list Y) (b : Z).

Lemma collect_lookup x y b batches (k : nat) bx by_ :
  (0 < b)%Z →
  collect (get_batches x y b) = Ok batches →
  batches !! k = Some (bx, by_) →
  let q := Z.to_nat (Z.of_nat (length x) / b) in
  let n := Z.to_nat b in
  k < q ∧ q * n ≤ length x
  ∧ bx = take n (drop (k * n) x)
  ∧ by_ = take n (drop (k * n) (take (q * n) y)).
Proof.
  intros Hb Hc Hk q n. rewrite collect_pos in Hc by done.
  injection Hc as <-. fold q n in Hk.
  apply list_lookup_fmap_Some in Hk as (k' & Heq & Hk').
  apply lookup_seq in Hk' as [-> Hlt]. simpl in Hlt. simpl in Heq.
  injection Heq as -> ->.
  pose proof (Z.div_pos (Z.of_nat (length x)) b ltac:(lia) Hb) as Hq.
  pose proof (Z.mul_div_le (Z.of_nat (length x)) b Hb) as Hle.
  assert (Hqn : q * n ≤ length x).
  { subst q n. apply Nat2Z.inj_le. rewrite Nat2Z.inj_mul, !Z2Nat.id; lia. }
  split_and!; [done..| |done].
  assert ((k + 1) * n ≤ q * n) by (apply Nat.mul_le_mono_r; lia).
  apply list_eq. intros j.
  destruct (decide (j < n)).
  - rewrite !lookup_take_lt, !lookup_drop by lia.
    rewrite lookup_take_lt by lia. done.
  - rewrite !lookup_take_ge by lia. done.
Qed.

End MoreBatchFacts.

(** X13. For a positive batch size the number of batches and the number of
    rows per batch depend on the rows only. The label batches are full when
    there are labels for all the rows that are kept; when there are not, no
    error is raised and some batch comes with fewer labels than rows. *)
Theorem get_batches_label_lengths {X Y : Type} (x : list X) (y : list Y) (b : Z) :
  (0 < b)%Z →
  let q := Z.to_nat (Z.of_nat (length x) / b) in
  let n := Z.to_nat b in
  ∃ batches,
    collect (get_batches x y b) = Ok batches
    ∧ length batches = q
    ∧ Forall (λ p, length p.1 = n) batches
    ∧ (q * n ≤ length y → Forall (λ p, length p.2 = n) batches)
    ∧ (length y < q * n → ∃ p, p ∈ batches ∧ length p.2 < n).
Proof.
  intros Hb q n.
  destruct (collect (get_batches x y b)) as [batches|e] eqn:Hc;
    [|by rewrite collect_pos in Hc by done].
  exists batches. split; [done|].
  assert (Hlen : length batches = q).
  { rewrite collect_pos in Hc by done. injection Hc as <-.
    by rewrite length_map, length_seq. }
  split_and!; [done| | |].
  - apply Forall_forall. intros [bx by_] [k Hk]%list_elem_of_lookup.
    destruct (collect_lookup x y b batches k bx by_ Hb Hc Hk)
      as (Hkq & Hqn & -> & _). fold q n in Hkq, Hqn. cbn [fst].
    assert ((k + 1) * n ≤ q * n) by (apply Nat.mul_le_mono_r; lia).
    rewrite length_take, length_drop. lia.
  - intros Hy. apply Forall_forall.
    intros [bx by_] [k Hk]%list_elem_of_lookup.
    destruct (collect_lookup x y b batches k bx by_ Hb Hc Hk)
      as (Hkq & Hqn & _ & ->). fold q n in Hkq, Hqn |- *. cbn [snd].
    assert ((k + 1) * n ≤ q * n) by (apply Nat.mul_le_mono_r; lia).
    rewrite length_take, length_drop, length_take. lia.
  - intros Hy. assert (0 < n) by (subst n; lia).
    set (k := length y / n).
    assert (Hk : k < q).
    { subst k. apply Nat.Div0.div_lt_upper_bound. lia. }
    destruct (lookup_lt_is_Some_2 batches k ltac:(lia)) as [[bx by_] Hp].
    exists (bx, by_). split; [by eapply list_elem_of_lookup_2|].
    destruct (collect_lookup x y b batches k bx by_ Hb Hc Hp)
      as (_ & _ & _ & ->). fold q n. cbn [snd].
    rewrite length_take, length_drop, length_take.
    pose proof (Nat.div_mod_eq (length y) n).
    pose proof (Nat.mod_upper_bound (length y) n ltac:(lia)).
    fold k in H0. lia.
Qed.

Lemma get_batches_label_lengths_witness :
  ∃ batches,
    collect (get_batches [1; 2; 3; 4; 5] [0; 1; 0] 2) = Ok batches
    ∧ ∃ p, p ∈ batches ∧ length p.2 < 2.
Proof.
  destruct (get_batches_label_lengths [1; 2; 3; 4; 5] [0; 1; 0] 2 ltac:(lia))
    as (batches & Hc & _ & _ & _ & Hshort).
  exists batches. split; [exact Hc|]. apply Hshort. simpl. lia.
Defined.

(** X14. Batches keep rows and labels paired: row [j] of batch [k] is row
    [k * batch_size + j] of the input, and label [j] of batch [k] is the
    label at that same index. *)
Theorem get_batches_aligned {X Y : Type} (x : list X) (y : list Y) (b : Z)
    (batches : list (list X * list Y)) (k j : nat) (bx : list X) (by_ : list Y) :
  (0 < b)%Z →
  collect (get_batches x y b) = Ok batches →
  batches !! k = Some (bx, by_) →
  j < Z.to_nat b →
  is_Some (bx !! j)
  ∧ bx !! j = x !! (k * Z.to_nat b + j)
  ∧ by_ !! j = y !! (k * Z.to_nat b + j).
Proof.
  intros Hb Hc Hk Hj.
  destruct (collect_lookup x y b batches k bx by_ Hb Hc Hk)
    as (Hkq & Hqn & -> & ->).
  set (q := Z.to_nat (Z.of_nat (length x) / b)) in *.
  set (n := Z.to_nat b) in *.
  assert ((k + 1) * n ≤ q * n) by (apply Nat.mul_le_mono_r; lia).
  rewrite !lookup_take_lt, !lookup_drop by lia.
  rewrite lookup_take_lt by lia.
  split_and!; [|done..]. apply lookup_lt_is_Some_2. lia.
Qed.

Lemma get_batches_aligned_witness :
  [30; 40] !! 1 = [10; 20; 30; 40; 50] !! (1 * Z.to_nat 2 + 1)
  ∧ [false; true] !! 1 = [true; true; false; true; false] !! (1 * Z.to_nat 2 + 1).
Proof.
  exact (proj2 (get_batches_aligned [10; 20; 30; 40; 50]
                  [true; true; false; true; false] 2
                  [([10; 20], [true; true]); ([30; 40], [false; true])]
                  1 1 [30; 40] [false; true]
                  ltac:(lia) eq_refl eq_refl ltac:(simpl; lia))).
Defined.

(** X15. The split and the batches together: when the notebook has at
    least as many labels as rows (fewer than [2^50]), every batch of the
    training, of the validation and of the test set has exactly
    [batch_size] rows of 200 entries and [batch_size] labels, and each set
    gives [len // batch_size] batches. *)
Theorem notebook_batches (reviews labels : string) (nb : notebook) (b : Z) :
  run reviews labels = Ok nb →
  (Z.of_nat (length (nb_features nb)) < 2 ^ 50)%Z →
  length (nb_features nb) ≤ length (nb_labels nb) →
  (0 < b)%Z →
  let full (sx : list (list nat)) (sy : list nat) :=
    ∃ batches,
      collect (get_batches sx sy b) = Ok batches
      ∧ Z.of_nat (length batches) = (Z.of_nat (length sx) / b)%Z
      ∧ Forall (λ p, Z.of_nat (length p.1) = b ∧ Z.of_nat (length p.2) = b
                     ∧ Forall (λ row, length row = seq_len) p.1) batches in
  full (train_x (nb_sets nb)) (train_y (nb_sets nb))
  ∧ full (val_x (nb_sets nb)) (val_y (nb_sets nb))
  ∧ full (test_x (nb_sets nb)) (test_y (nb_sets nb)).
Proof.
  intros Hrun Hn Hlab Hb full.
  assert (Hfull : ∀ sx sy,
            length sx ≤ length sy → Forall (λ row, length row = seq_len) sx →
            full sx sy).
  { intros sx sy Hlen Hrows. unfold full.
    destruct (collect (get_batches sx sy b)) as [batches|e] eqn:Hc;
      [|by rewrite collect_pos in Hc by done].
    exists batches. split; [done|].
    pose proof (Z.div_pos (Z.of_nat (length sx)) b ltac:(lia) Hb) as Hq.
    split.
    - rewrite collect_pos in Hc by done. injection Hc as <-.
      rewrite length_map, length_seq. lia.
    - apply Forall_forall. intros [bx by_] [k Hk]%list_elem_of_lookup.
      destruct (collect_lookup sx sy b batches k bx by_ Hb Hc Hk)
        as (Hkq & Hqn & -> & ->).
      set (q := Z.to_nat (Z.of_nat (length sx) / b)) in *.
      set (n := Z.to_nat b) in *.
      assert ((k + 1) * n ≤ q * n) by (apply Nat.mul_le_mono_r; lia).
      cbn [fst snd].
      rewrite !length_take, !length_drop, length_take.
      split_and!; [subst n; lia..|].
      rewrite Forall_forall in Hrows. apply Forall_forall.
      intros row Hrow. apply Hrows.
      by eapply subseteq_drop, subseteq_take. }
  destruct (run_inv _ _ _ Hrun) as (rsi & _ & _ & _ & _ & _ & Hf & Hs).
  assert (Hrows : Forall (λ row, length row = seq_len) (nb_features nb)).
  { rewrite Hf. apply Forall_forall.
    intros row (each & -> & _)%list_elem_of_fmap. apply framed_length. }
  rewrite split_cuts in Hs by done. injection Hs as <-.
  cbn [train_x train_y val_x val_y test_x test_y].
  set (n := length (nb_features nb)) in *.
  set (a := 4 * n / 5). set (c := (n - a) / 2).
  pose proof (Nat.div_mod_eq (4 * n) 5) as Ha.
  pose proof (Nat.mod_upper_bound (4 * n) 5 ltac:(lia)) as Ha'.
  pose proof (Nat.div_mod_eq (n - a) 2) as Hc.
  pose proof (Nat.mod_upper_bound (n - a) 2 ltac:(lia)) as Hc'.
  fold a in Ha. fold c in Hc.
  rewrite Forall_forall in Hrows.
  split_and!; apply Hfull.
  - rewrite !length_take. fold n. lia.
  - apply Forall_forall. intros row ?%subseteq_take. by apply Hrows.
  - rewrite !length_take, !length_drop. fold n. lia.
  - apply Forall_forall. intros row ?%subseteq_take%subseteq_drop.
    by apply Hrows.
  - rewrite !length_drop. fold n. lia.
  - apply Forall_forall. intros row ?%subseteq_drop%subseteq_drop.
    by apply Hrows.
Qed.

Lemma features_in_range_witness :
  let nl := String Py.LF EmptyString in
  ∃ nb, run ("good film" +:+ nl +:+ "bad") ("positive" +:+ nl +:+ "negative") = Ok nb
        ∧ n_words (nb_vocab_to_int nb) = 4.
Proof.
  intros nl. eexists. split; [vm_compute; reflexivity|].
  etransitivity;
    [refine (proj1 (features_in_range ("good film" +:+ nl +:+ "bad")
                      ("positive" +:+ nl +:+ "negative") _ _));
     vm_compute; reflexivity|].
  vm_compute. reflexivity.
Defined.

Lemma features_no_padding_row_witness :
  let nl := String Py.LF EmptyString in
  ∃ nb, run ("good film" +:+ nl +:+ nl +:+ "bad") ("positive" +:+ nl +:+ "negative")
        = Ok nb
        ∧ length (nb_features nb) = length (nb_reviews_ints nb).
Proof.
  intros nl. eexists. split; [vm_compute; reflexivity|].
  refine (proj1 (features_no_padding_row
                   ("good film" +:+ nl +:+ nl +:+ "bad")
                   ("positive" +:+ nl +:+ "negative") _ _)).
  vm_compute. reflexivity.
Defined.

Lemma notebook_batches_witness :
  let nl := String Py.LF EmptyString in
  ∃ nb, run ("a" +:+ nl +:+ "b" +:+ nl +:+ "c" +:+ nl +:+ "d" +:+ nl +:+ "e")
            ("positive" +:+ nl +:+ "negative" +:+ nl +:+ "positive" +:+ nl
             +:+ "negative" +:+ nl +:+ "positive") = Ok nb
    ∧ ∃ batches,
        collect (get_batches (train_x (nb_sets nb)) (train_y (nb_sets nb)) 2)
        = Ok batches
        ∧ Z.of_nat (length batches)
          = (Z.of_nat (length (train_x (nb_sets nb))) / 2)%Z.
Proof.
  intros nl. eexists. split; [vm_compute; reflexivity|].
  destruct (proj1 (notebook_batches
              ("a" +:+ nl +:+ "b" +:+ nl +:+ "c" +:+ nl +:+ "d" +:+ nl +:+ "e")
              ("positive" +:+ nl +:+ "negative" +:+ nl +:+ "positive" +:+ nl
               +:+ "negative" +:+ nl +:+ "positive") _ 2
              ltac:(vm_compute; reflexivity) ltac:(vm_compute; reflexivity)
              ltac:(vm_compute; lia) ltac:(lia)))
    as (batches & Hc & Hlen & _).
  exists batches. split; [exact Hc|exact Hlen].
Defined.

(** ** Files that end with a line feed *)

Lemma mapM_app_Ok {A B} (f : A → result B) (l1 l2 : list A) (k : list B) :
  mapM f (l1 ++ l2) = Ok k →
  ∃ k1 k2, k = k1 ++ k2 ∧ mapM f l1 = Ok k1 ∧ mapM f l2 = Ok k2.
Proof.
  intros (k1 & k2 & H1 & H2 & ->)%mapM_Ok%Forall2_app_inv_l.
  exists k1, k2. split; [done|]. split; by apply mapM_Ok.
Qed.

(** X16. Files that end with a line feed and hold no blank line: the
    filter removes the empty last review and nothing else, so the encoded
    review at index [i] is the encoding of line [i]; the labels keep one
    entry more than the matrix has rows, the 0 of the empty last line. *)
Theorem trailing_line_feed_alignment (reviews labels : string) (nb : notebook) :
  let nl := String Py.LF EmptyString in
  run (reviews +:+ nl) (labels +:+ nl) = Ok nb →
  Forall (λ each, Py.split_ws each ≠ []) (reviews_of reviews) →
  length (Py.split Py.LF labels) = length (reviews_of reviews) →
  length (nb_reviews_ints nb) = length (reviews_of reviews)
  ∧ nb_labels nb = labels_of labels ++ [0]
  ∧ length (nb_labels nb) = length (nb_features nb) + 1
  ∧ ∀ i each, reviews_of reviews !! i = Some each →
      ∃ ids, nb_reviews_ints nb !! i = Some ids
             ∧ encode_review (nb_vocab_to_int nb) each = Ok ids.
Proof.
  intros nl Hrun Hwords Hlines. subst nl.
  destruct (run_inv _ _ _ Hrun) as (rsi & Henc & Hd & _ & Hri & Hlab & Hf & _).
  assert (Hrev : reviews_of (reviews +:+ String Py.LF EmptyString)
                 = reviews_of reviews ++ [EmptyString]).
  { unfold reviews_of, Py.split, all_text. rewrite remove_chars_app.
    change (Py.remove_chars Py.punctuation (String Py.LF EmptyString))
      with (String Py.LF EmptyString).
    apply split_by_trailing, Ascii.eqb_refl. }
  rewrite Hrev, <- Hd in Henc. unfold encode_reviews in Henc.
  apply mapM_app_Ok in Henc as (k1 & k2 & -> & Hk1 & Hk2).
  simpl in Hk2. injection Hk2 as <-.
  apply mapM_Ok in Hk1.
  assert (Hne : Forall (λ ids, length ids ≠ 0) k1).
  { apply Forall_forall. intros ids [i Hi]%list_elem_of_lookup.
    destruct (Forall2_lookup_r _ _ _ _ _ Hk1 Hi) as (each & Heach & Hids).
    apply mapM_Ok, Forall2_length in Hids. rewrite <- Hids.
    rewrite Forall_forall in Hwords.
    pose proof (Hwords each ltac:(by eapply list_elem_of_lookup_2)).
    by destruct (Py.split_ws each). }
  assert (Hfilter : filter_nonempty (k1 ++ [[]]) = k1).
  { unfold filter_nonempty. rewrite filter_app.
    change (filter (λ each, length each ≠ 0) [[]]) with (@nil (list nat)).
    rewrite app_nil_r. clear -Hne.
    induction Hne as [|ids k1 Hids _ IH]; [done|].
    rewrite filter_cons, decide_True by done. by rewrite IH. }
  rewrite Hfilter in Hri, Hf.
  assert (Hlab' : nb_labels nb = labels_of labels ++ [0]).
  { rewrite Hlab. unfold labels_of, Py.split.
    rewrite split_by_trailing by apply Ascii.eqb_refl. by rewrite map_app. }
  split_and!.
  - rewrite Hri. symmetry. by eapply Forall2_length.
  - done.
  - rewrite Hlab', Hf, length_app, length_map.
    unfold labels_of. rewrite length_map, Hlines.
    apply Forall2_length in Hk1. simpl. lia.
  - intros i each Hi.
    destruct (Forall2_lookup_l _ _ _ _ _ Hk1 Hi) as (ids & Hids & Hok).
    exists ids. by rewrite Hri.
Qed.

Lemma trailing_line_feed_alignment_witness :
  let nl := String Py.LF EmptyString in
  ∃ nb, run (("good film" +:+ nl +:+ "bad") +:+ nl)
            (("positive" +:+ nl +:+ "negative") +:+ nl) = Ok nb
        ∧ length (nb_labels nb) = length (nb_features nb) + 1.
Proof.
  intros nl. eexists. split; [vm_compute; reflexivity|].
  refine (proj1 (proj2 (proj2 (trailing_line_feed_alignment
            ("good film" +:+ nl +:+ "bad") ("positive" +:+ nl +:+ "negative")
            _ _ _ _)))).
  - vm_compute. reflexivity.
  - repeat constructor; vm_compute; discriminate.
  - vm_compute. reflexivity.
Defined.

(** ** A corpus without words *)

(** X17. A corpus in which no line holds a word (blank lines, white space,
    punctuation) goes through the notebook without an error, whatever the
    labels: the vocabulary is empty, every review is filtered out, the matrix
    has no row, the three feature sets are empty, and all the labels are
    left in the test labels. *)
Theorem wordless_corpus (reviews labels : string) :
  words_of reviews = [] →
  ∃ nb, run reviews labels = Ok nb
    ∧ nb_vocab_to_int nb = ∅
    ∧ nb_reviews_ints nb = []
    ∧ nb_features nb = []
    ∧ train_x (nb_sets nb) = [] ∧ val_x (nb_sets nb) = []
    ∧ test_x (nb_sets nb) = []
    ∧ train_y (nb_sets nb) = [] ∧ val_y (nb_sets nb) = []
    ∧ test_y (nb_sets nb) = labels_of labels.
Proof.
  intros Hw.
  destruct (encode_reviews_own_vocabulary reviews) as [rsi Hrsi].
  assert (Hempty : filter_nonempty rsi = []).
  { pose proof Hrsi as Henc. apply mapM_Ok in Henc.
    assert (Hall : Forall (λ each, Py.split_ws each = []) (reviews_of reviews)).
    { apply Forall_forall. intros each Heach.
      destruct (Py.split_ws each) as [|w ws] eqn:Hws; [done|]. exfalso.
      assert (Hin : w ∈ words_of reviews).
      { unfold words_of. rewrite split_ws_join.
        apply elem_of_concat_map. exists each. split; [done|].
        rewrite Hws. by left. }
      rewrite Hw in Hin. by apply elem_of_nil in Hin. }
    unfold filter_nonempty. clear Hrsi.
    induction Henc as [|each ids rs rsi' Hids _ IH]; [done|].
    apply Forall_cons in Hall as [Heach Hall].
    apply mapM_Ok, Forall2_length in Hids. rewrite Heach in Hids.
    rewrite filter_cons, decide_False by (simpl in Hids; lia).
    by apply IH. }
  unfold run. rewrite Hrsi. cbn [mbind result_bind]. rewrite Hempty.
  rewrite features_of_framed. cbn [mbind result_bind map].
  rewrite split_cuts by (simpl; lia). cbn [mbind result_bind].
  eexists. split; [done|]. cbn. rewrite Hw. split_and!; try done.
Qed.

Lemma wordless_corpus_witness :
  let nl := String Py.LF EmptyString in
  ∃ nb, run (" ... " +:+ nl +:+ "?!" +:+ nl) ("positive" +:+ nl) = Ok nb
        ∧ nb_features nb = [].
Proof.
  intros nl.
  destruct (wordless_corpus (" ... " +:+ nl +:+ "?!" +:+ nl) ("positive" +:+ nl))
    as (nb & Hrun & _ & _ & Hf & _); [vm_compute; reflexivity|].
  exists nb. split; [exact Hrun|exact Hf].
Defined.
